(** * The cuSPARSELt benchmark driver and the framework tests, in Rocq

    The repository slice holds one authored program,
    [benchmark_cusparselt.py], and two test files that exercise the host
    framework.  The benchmark is a straight-line driver: every interesting
    thing it does is a call into the framework (torch, pandas, os).  It is
    embedded here as a program over those calls: a tree whose nodes are the
    calls the script makes, in the order it makes them, and whose branches
    are the answers the framework may give.  A world answers each call or
    raises; running a program in a world gives the trace of calls, the
    files of the working directory and the value returned or the exception
    raised. *)

From Stdlib Require Import ZArith List String Lia PrimFloat.
From stdpp Require Import base gmap sets list strings.

Set Default Proof Using "Type".
Open Scope Z_scope.
Open Scope string_scope.

(** ** Python values the script handles *)

(** Framework objects (modules, tensors, devices, pruners, timers, open
    files, data frames) are opaque to the script: it only passes them
    around.  They are handles. *)
Definition Handle := nat.

(** The exceptions that can end a run. *)
Inductive Exn :=
| AssertionError
| NameError (name : string)
| ZeroDivisionError
| FileNotFoundError (path : string)
| SystemExit (code : Z)
| FrameworkError (what : string).

(** [torch.float32] and [torch.float16], the dtypes of the
    int8-fp16-linear sweep. *)
Inductive Dtype := torch_float32 | torch_float16.

(** [str(dtype)] *)
Definition str_dtype (d : Dtype) : string :=
  match d with
  | torch_float32 => "torch.float32"
  | torch_float16 => "torch.float16"
  end.

(** Classes named in the [mapping] argument of [pruner.convert]. *)
Inductive ModuleClass := cls_nn_Linear | cls_cuSPARSELtLinear.

(** Keyword arguments of [WeightNormSparsifier(...)]. *)
Record SparsifierConfig := {
  sparsity_level : float;
  sparse_block_shape : Z * Z;
  zeros_per_block : Z
}.

(** A piece of printed text.  [sizeof_fmt(num)] renders a byte count by
    repeated floating-point division and [%3.1f] formatting; the rendering
    is kept symbolic as [Sizeof num].  [Str h] is [str(h)] of a framework
    object. *)
Inductive Piece :=
| Lit (s : string)
| Sizeof (num : Z)
| Str (h : Handle).

(** A value stored in a result row. *)
Inductive Value :=
| VInt (z : Z)
| VFloat (f : float)
| VStr (s : string)
| VText (p : Piece).

(** A result row: a Python dict, in insertion order. *)
Definition Row := list (string * Value).

(** ** Calls into the framework *)

Inductive Op :=
(* nn.Module *)
| Module_init
| nn_Linear (in_features out_features : Z)
| Module_setattr (self : Handle) (name : string) (v : Handle)
| getattr (obj : Handle) (name : string)
| Module_half (self : Handle)
| Module_cuda (self : Handle)
| Module_eval (self : Handle)
| Module_type (self : Handle) (dtype : Dtype)
| Module_call (self x : Handle)
| Module_state_dict (self : Handle)
| Module_load_state_dict (self sd : Handle)
(* torch *)
| torch_randn (shape : list Z) (device dtype : Handle)
| torch_randint (high : Z) (shape : list Z) (device : Handle) (dtype : Dtype)
| torch_allclose (a b : Handle) (rtol atol : float)
| torch_load (path : string)
| torch_save (obj : Handle) (path : string)
| cuda_memory_allocated
| cuda_memory_summary
| cuda_empty_cache
(* torch.ao.pruning *)
| WeightNormSparsifier (cfg : SparsifierConfig)
| Sparsifier_prepare (self model : Handle) (config : list (list (string * string)))
| Sparsifier_step (self : Handle)
| Sparsifier_convert (self model : Handle)
    (mapping : list (ModuleClass * ModuleClass)) (inplace : option bool)
| Sparsifier_squash_mask (self : Handle)
| get_alg_id (cslt : Handle)
(* torch.utils.benchmark *)
| Timer (stmt : string) (globals : list (string * Handle))
| blocked_autorange (timer : Handle)
| Measurement_median (measurement : Handle)
(* builtins, os, pprint, tqdm *)
| print (text : list Piece)
| pprint (obj : Handle)
| open_ (path mode : string)
| fileno (file : Handle)
| stdout_fileno
| os_dup (fd : Z)
| os_dup2 (fd fd2 : Z)
| os_stat_size (path : string)
| tqdm (items : nat) (total : option Z)
(* pandas *)
| DataFrame_from_records (rows : list Row)
| DataFrame_to_csv (df : Handle) (path : string)
| DataFrame_groupby_first (df : Handle) (keys : list string).

(** What each call returns. *)
Definition Ans (o : Op) : Type :=
  match o with
  | Module_init | nn_Linear _ _ | getattr _ _ => Handle
  | Module_half _ | Module_cuda _ | Module_eval _ | Module_type _ _ => Handle
  | Module_call _ _ | Module_state_dict _ => Handle
  | torch_randn _ _ _ | torch_randint _ _ _ _ | torch_load _ => Handle
  | torch_allclose _ _ _ _ => bool
  | cuda_memory_allocated => Z
  | cuda_memory_summary => string
  | WeightNormSparsifier _ | Sparsifier_convert _ _ _ _ => Handle
  | get_alg_id _ => Z
  | Timer _ _ | blocked_autorange _ => Handle
  | Measurement_median _ => float
  | open_ _ _ => Handle
  | fileno _ | stdout_fileno | os_dup _ | os_stat_size _ => Z
  | DataFrame_from_records _ | DataFrame_groupby_first _ _ => Handle
  | _ => unit
  end.

(** The outcome of one call. *)
Inductive Res (A : Type) :=
| Returned (a : A)
| Raised (e : Exn).
Arguments Returned {A} a.
Arguments Raised {A} e.

(** One entry of a trace: the call and how it ended. *)
Inductive Event := Called (o : Op) (r : Res (Ans o)).

Definition op_of (ev : Event) : Op := let 'Called o _ := ev in o.

Definition raised_of (ev : Event) : option Exn :=
  match ev with
  | Called _ (Raised e) => Some e
  | Called _ (Returned _) => None
  end.

(** ** Programs over framework calls *)

Inductive Prog (A : Type) : Type :=
| Ret (a : A)
| Raise (e : Exn)
| Do (o : Op) (k : Ans o -> Prog A).
Arguments Ret {A} a.
Arguments Raise {A} e.
Arguments Do {A} o k.

Fixpoint bind {A B} (p : Prog A) (f : A -> Prog B) : Prog B :=
  match p with
  | Ret a => f a
  | Raise e => Raise e
  | Do o k => Do o (fun v => bind (k v) f)
  end.

Definition call (o : Op) : Prog (Ans o) := Do o Ret.

Notation "x <- p ;; q" := (bind p (fun x => q))
  (at level 100, p at next level, right associativity).
Notation "p ;; q" := (bind p (fun _ => q))
  (at level 100, right associativity).

(** A comprehension [[f(x) for x in xs]]: the calls of [f] run in order and
    the first exception ends the loop. *)
Fixpoint mapM {A B} (f : A -> Prog B) (xs : list A) : Prog (list B) :=
  match xs with
  | [] => Ret []
  | x :: xs' => y <- f x ;; ys <- mapM f xs' ;; Ret (y :: ys)
  end.

(** ** Worlds and runs *)

(** A world answers the call made at step [t] of the run, or raises. *)
Definition World := forall o : Op, nat -> Res (Ans o).

(** Files the working directory holds. *)
Definition Files := gset string.

(** The file a call reads: it raises [FileNotFoundError] when the file is
    missing. *)
Definition needs_file (o : Op) : option string :=
  match o with
  | torch_load path => Some path
  | os_stat_size path => Some path
  | _ => None
  end.

(** The file a call leaves behind when it returns. *)
Definition creates_file (o : Op) : option string :=
  match o with
  | torch_save _ path => Some path
  | DataFrame_to_csv _ path => Some path
  | open_ path mode => if String.eqb mode "w" then Some path else None
  | _ => None
  end.

Definition missing (o : Op) (fs : Files) : option string :=
  match needs_file o with
  | Some path => if decide (path ∈ fs) then None else Some path
  | None => None
  end.

Definition after_call (o : Op) (fs : Files) : Files :=
  match creates_file o with
  | Some path => {[ path ]} ∪ fs
  | None => fs
  end.

(** One call at step [t] with files [fs]. *)
Definition perform (W : World) (o : Op) (t : nat) (fs : Files) : Res (Ans o) :=
  match missing o fs with
  | Some path => Raised (FileNotFoundError path)
  | None => W o t
  end.

Record Outcome (A : Type) := {
  trace : list Event;
  files : Files;
  result : Res A
}.
Arguments trace {A} _.
Arguments files {A} _.
Arguments result {A} _.

(** The run of [p] from step [t] with files [fs]. *)
Fixpoint run {A} (W : World) (p : Prog A) (t : nat) (fs : Files) : Outcome A :=
  match p with
  | Ret a => {| trace := []; files := fs; result := Returned a |}
  | Raise e => {| trace := []; files := fs; result := Raised e |}
  | Do o k =>
      match perform W o t fs with
      | Raised e =>
          {| trace := [Called o (Raised e)]; files := fs; result := Raised e |}
      | Returned v =>
          let r := run W (k v) (S t) (after_call o fs) in
          {| trace := Called o (Returned v) :: trace r;
             files := files r;
             result := result r |}
      end
  end.

(** ** The script: [benchmark_cusparselt.py] *)

(** [Model(m, k)]: [__init__] calls [super().__init__()] and stores
    [nn.Linear(k, m)] ("transposed so reversed") under [self.linear]. *)
Definition Model (m k : Z) : Prog Handle :=
  self <- call Module_init ;;
  linear <- call (nn_Linear k m) ;;
  call (Module_setattr self "linear" linear) ;;
  Ret self.

(** [Model.forward(self, x)]: [self.linear(x)].  [model(x)] is this
    method. *)
Definition forward (self x : Handle) : Prog Handle :=
  linear <- call (getattr self "linear") ;;
  call (Module_call linear x).

(** [model.linear.weight.<name>] *)
Definition linear_weight_attr (model : Handle) (name : string) : Prog Handle :=
  linear <- call (getattr model "linear") ;;
  weight <- call (getattr linear "weight") ;;
  call (getattr weight name).

(** [assert cond] *)
Definition assert (cond : bool) : Prog unit :=
  if cond then Ret tt else Raise AssertionError.

(** [x / y] on Python floats. *)
Definition truediv (x y : float) : Prog float :=
  if PrimFloat.eqb y 0%float then Raise ZeroDivisionError
  else Ret (x / y)%float.

(** The literal [1e-3]. *)
Definition tol : float := 0x1.0624dd2f1a9fcp-10%float.

(** The pruner both comparisons build. *)
Definition pruner_config : SparsifierConfig :=
  {| sparsity_level := 1%float;
     sparse_block_shape := (1, 4);
     zeros_per_block := 2 |}.

Definition linear_mapping : list (ModuleClass * ModuleClass) :=
  [(cls_nn_Linear, cls_cuSPARSELtLinear)].

Definition tensor_fqn_config : list (list (string * string)) :=
  [[("tensor_fqn", "linear.weight")]].

(** Python's [s * n] on a string. *)
Fixpoint str_mul (s : string) (n : nat) : string :=
  match n with
  | O => ""
  | S n' => s ++ str_mul s n'
  end.

(** [compare_dtype(m, k, n, batch_size, dtype)] *)
Definition compare_dtype (m k n batch_size : Z) (dtype : Dtype) : Prog Row :=
  model <- Model m k ;;
  model <- call (Module_type model dtype) ;;
  model <- call (Module_eval model) ;;
  model <- call (Module_cuda model) ;;
  device <- linear_weight_attr model "device" ;;
  input_tensor <- call (torch_randint 10 [batch_size; n; k] device dtype) ;;
  timer <- call (Timer "model(input_tensor)"
                   [("input_tensor", input_tensor); ("model", model)]) ;;
  latency <- call (blocked_autorange timer) ;;
  median <- call (Measurement_median latency) ;;
  Ret [("m", VInt m);
       ("k", VInt k);
       ("n", VInt n);
       ("eval_batch_size", VInt batch_size);
       ("dtype", VStr (str_dtype dtype));
       ("latency (ms)", VFloat (median * 1000)%float)].

(** The three prints that follow each stage of [compare_memory]:
    a line of 100 plus signs, the labelled allocation and the summary. *)
Definition memory_report (label : string) : Prog unit :=
  call (print [Lit (str_mul "+" 100)]) ;;
  allocated <- call cuda_memory_allocated ;;
  call (print [Lit (label ++ ": "); Sizeof allocated]) ;;
  summary <- call cuda_memory_summary ;;
  call (print [Lit summary]).

(** [compare_memory(m, k, n, batch_size)] *)
Definition compare_memory (m k n batch_size : Z) : Prog Row :=
  memory_report "start" ;;
  (* create dense model *)
  model <- Model m k ;;
  model <- call (Module_half model) ;;
  model <- call (Module_cuda model) ;;
  model <- call (Module_eval model) ;;
  memory_report "model" ;;
  (* create input tensor *)
  device <- linear_weight_attr model "device" ;;
  dtype <- linear_weight_attr model "dtype" ;;
  input_tensor <- call (torch_randn [batch_size; n; k] device dtype) ;;
  memory_report "input" ;;
  (* get sparse model *)
  allocated <- call cuda_memory_allocated ;;
  call (print [Lit "sparse start: "; Sizeof allocated]) ;;
  pruner <- call (WeightNormSparsifier pruner_config) ;;
  call (Sparsifier_prepare pruner model tensor_fqn_config) ;;
  call (Sparsifier_step pruner) ;;
  memory_report "step" ;;
  sparse_model <- call (Sparsifier_convert pruner model linear_mapping (Some false)) ;;
  sd <- call (torch_load "sparse_model.pt") ;;
  call (Module_load_state_dict sparse_model sd) ;;
  call (print [Str model]) ;;
  memory_report "convert" ;;
  (* zero out dense tensor weights for correctness check *)
  call (Sparsifier_squash_mask pruner) ;;
  sd <- call (torch_load "dense_model.pt") ;;
  call (Module_load_state_dict model sd) ;;
  memory_report "squash" ;;
  call cuda_empty_cache ;;
  memory_report "del pruner" ;;
  dense_out <- forward model input_tensor ;;
  sparse_out <- forward sparse_model input_tensor ;;
  close <- call (torch_allclose dense_out sparse_out tol tol) ;;
  assert close ;;
  linear <- call (getattr sparse_model "linear") ;;
  cslt <- call (getattr linear "cslt") ;;
  alg_id <- call (get_alg_id cslt) ;;
  call (print [Str model]) ;;
  sd <- call (Module_state_dict sparse_model) ;;
  call (torch_save sd "sparse_model.pt") ;;
  sd <- call (Module_state_dict model) ;;
  call (torch_save sd "dense_model.pt") ;;
  loaded <- call (torch_load "sparse_model.pt") ;;
  call (pprint loaded) ;;
  sparse_size <- call (os_stat_size "sparse_model.pt") ;;
  dense_size <- call (os_stat_size "dense_model.pt") ;;
  Ret [("m", VInt m);
       ("k", VInt k);
       ("n", VInt n);
       ("eval_batch_size", VInt batch_size);
       ("init_batch_size", VInt batch_size);
       ("alg_id", VInt alg_id);
       ("sparse_model_size", VText (Sizeof sparse_size));
       ("dense_model_size", VText (Sizeof dense_size))].

(** [init_batch_size if init_batch_size else batch_size]: [None] and [0]
    are falsy. *)
Definition init_or (init_batch_size : option Z) (batch_size : Z) : Z :=
  match init_batch_size with
  | Some i => if Z.eqb i 0 then batch_size else i
  | None => batch_size
  end.

(** [compare_linear(m, k, n, batch_size, init_batch_size=None)] *)
Definition compare_linear (m k n batch_size : Z) (init_batch_size : option Z)
  : Prog Row :=
  (* create dense model *)
  model <- Model m k ;;
  model <- call (Module_half model) ;;
  model <- call (Module_cuda model) ;;
  model <- call (Module_eval model) ;;
  (* create input tensor *)
  device <- linear_weight_attr model "device" ;;
  dtype <- linear_weight_attr model "dtype" ;;
  input_tensor <-
    call (torch_randn [init_or init_batch_size batch_size; n; k] device dtype) ;;
  (* get sparse model *)
  pruner <- call (WeightNormSparsifier pruner_config) ;;
  call (Sparsifier_prepare pruner model tensor_fqn_config) ;;
  call (Sparsifier_step pruner) ;;
  sparse_model <- call (Sparsifier_convert pruner model linear_mapping None) ;;
  (* zero out dense tensor weights for correctness check *)
  call (Sparsifier_squash_mask pruner) ;;
  devnull <- call (open_ "/dev/null" "w") ;;
  stdout_fd <- call stdout_fileno ;;
  oldstdout_fno <- call (os_dup stdout_fd) ;;
  devnull_fd <- call (fileno devnull) ;;
  call (os_dup2 devnull_fd 1) ;;
  dense_out <- forward model input_tensor ;;
  sparse_out <- forward sparse_model input_tensor ;;
  close <- call (torch_allclose dense_out sparse_out tol tol) ;;
  assert close ;;
  (* get alg_id *)
  linear <- call (getattr sparse_model "linear") ;;
  cslt <- call (getattr linear "cslt") ;;
  alg_id <- call (get_alg_id cslt) ;;
  device <- linear_weight_attr model "device" ;;
  dtype <- linear_weight_attr model "dtype" ;;
  input_tensor <- call (torch_randn [batch_size; n; k] device dtype) ;;
  (* get latency *)
  sparse_timer <- call (Timer "sparse_model(input_tensor)"
      [("input_tensor", input_tensor); ("sparse_model", sparse_model)]) ;;
  sparse_measurement <- call (blocked_autorange sparse_timer) ;;
  dense_timer <- call (Timer "model(input_tensor)"
      [("input_tensor", input_tensor); ("model", model)]) ;;
  dense_measurement <- call (blocked_autorange dense_timer) ;;
  call (os_dup2 oldstdout_fno 1) ;;
  call cuda_empty_cache ;;
  call cuda_empty_cache ;;
  call cuda_empty_cache ;;
  sparse_median <- call (Measurement_median sparse_measurement) ;;
  dense_median <- call (Measurement_median dense_measurement) ;;
  dense_median' <- call (Measurement_median dense_measurement) ;;
  sparse_median' <- call (Measurement_median sparse_measurement) ;;
  speedup <- truediv dense_median' sparse_median' ;;
  Ret [("m", VInt m);
       ("k", VInt k);
       ("n", VInt n);
       ("eval_batch_size", VInt batch_size);
       ("init_batch_size", VInt (init_or init_batch_size batch_size));
       ("alg_id", VInt alg_id);
       ("sparse_latency (ms)", VFloat (sparse_median * 1000)%float);
       ("dense_latency (ms)", VFloat (dense_median * 1000)%float);
       ("speedup (d/s)", VFloat speedup)].

(** ** The command line and the mode dispatch *)

(** The [choices] of [--mode]. *)
Definition choices : list string :=
  ["nvidia-bert";
   "nvidia-fixed-k";
   "nvidia-fixed-mn";
   "distilbert-shapes";
   "alg-id-sweep";
   "int8-fp16-linear";
   "memory"].

(** [parser.parse_args()] for the one flag the parser declares.  The
    argument is the value given to [--mode], if the flag was given.  The
    flag is not [required], so its absence leaves [args.mode = None]; a
    value outside [choices] makes argparse exit with status 2. *)
Definition parse_args (given : option string) : Prog (option string) :=
  match given with
  | None => Ret None
  | Some v =>
      if existsb (String.eqb v) choices then Ret (Some v)
      else Raise (SystemExit 2)
  end.

(** [args.mode == s] *)
Definition mode_is (mode : option string) (s : string) : bool :=
  match mode with
  | Some v => String.eqb v s
  | None => false
  end.

(** [f"{args.mode}"] *)
Definition str_mode (mode : option string) : string :=
  match mode with
  | Some v => v
  | None => "None"
  end.

(** [list(range(start, stop, step))] for a positive [step]. *)
Definition range (start stop step : Z) : list Z :=
  map (fun i => start + step * Z.of_nat i)
      (seq 0 (Z.to_nat ((stop - start + step - 1) / step))).

(** [itertools.product(xs, ys)] *)
Definition product {A B} (xs : list A) (ys : list B) : list (A * B) :=
  flat_map (fun x => map (fun y => (x, y)) ys) xs.

Definition bert_shapes : list (Z * Z * Z) :=
  [(3072, 1024, 16384);
   (4096, 1024, 16384);
   (1024, 1024, 16384);
   (1024, 4096, 16384)].

Definition mn_vals : list Z :=
  [3072; 4096; 5120; 6144; 7168; 8192; 9216; 10240; 11264; 12288; 13312;
   14336; 15360; 16384; 17408; 18432; 19456; 20480].

Definition k_vals : list Z :=
  [2560; 3840; 5120; 6400; 7680; 8960; 10240; 11520; 12800; 14080; 15360;
   16640; 17920; 19200; 20480].

Definition distilbert_shapes : list (Z * Z * Z) :=
  [(768, 3072, 3072);
   (3072, 768, 3072)].

Definition distilbert_batch_sizes : list Z := [4; 16; 64; 256].

Definition dim_range : list Z := range 96 (3072 + 1) 96.

Definition sweep_batch_sizes : list Z := range 4 (128 + 1) 4.

Definition dtypes : list Dtype := [torch_float32; torch_float16].

Definition dtype_batch_sizes : list Z := [4; 16; 64; 256].

Definition len {A} (l : list A) : Z := Z.of_nat (length l).

(** What the name [results] is bound to: a list already built, or a
    generator expression whose body has not run yet. *)
Inductive Results :=
| Rows (rows : list Row)
| Generator (body : Prog (list Row)).

(** The [if]/[elif] chain on [args.mode].  [None] stands for the name
    [results] left unbound. *)
Definition dispatch (mode : option string) : Prog (option Results) :=
  if mode_is mode "nvidia-bert" then
    call (tqdm (length bert_shapes) None) ;;
    Ret (Some (Generator
      (mapM (fun '(m, k, n) => compare_linear m k n 1 None) bert_shapes)))
  else if mode_is mode "nvidia-fixed-k" then
    call (tqdm (length mn_vals) None) ;;
    Ret (Some (Generator
      (mapM (fun mn => compare_linear mn 10240 mn 1 None) mn_vals)))
  else if mode_is mode "nvidia-fixed-mn" then
    call (tqdm (length k_vals) None) ;;
    Ret (Some (Generator
      (mapM (fun k => compare_linear 10240 k 10240 1 None) k_vals)))
  else if mode_is mode "distilbert-shapes" then
    call (tqdm (length (product distilbert_shapes distilbert_batch_sizes))
               (Some (len distilbert_shapes * len distilbert_batch_sizes))) ;;
    Ret (Some (Generator
      (mapM (fun '((m, k, n), batch_size) => compare_linear m k n batch_size None)
            (product distilbert_shapes distilbert_batch_sizes))))
  else if mode_is mode "alg-id-sweep" then
    call (tqdm (length (product dim_range sweep_batch_sizes))
               (Some (len dim_range * len sweep_batch_sizes))) ;;
    results <- mapM (fun '(n, batch_size) => compare_linear 768 3072 n batch_size None)
                    (product dim_range sweep_batch_sizes) ;;
    call (tqdm (length (product sweep_batch_sizes sweep_batch_sizes))
               (Some (len sweep_batch_sizes ^ 2))) ;;
    more <- mapM (fun '(batch_size, init_batch_size) =>
                    compare_linear 768 3072 96 batch_size (Some init_batch_size))
                 (product sweep_batch_sizes sweep_batch_sizes) ;;
    Ret (Some (Rows (results ++ more)))
  else if mode_is mode "memory" then
    row <- compare_memory 4096 4096 4096 1 ;;
    Ret (Some (Rows [row]))
  else if mode_is mode "int8-fp16-linear" then
    call (tqdm (length (product dtype_batch_sizes dtypes))
               (Some (len dtypes * len dtype_batch_sizes))) ;;
    Ret (Some (Generator
      (mapM (fun '(batch_size, dtype) => compare_dtype 768 3072 768 batch_size dtype)
            (product dtype_batch_sizes dtypes))))
  else Ret None.

(** Reading the name [results]. *)
Definition read_results (results : option Results) : Prog Results :=
  match results with
  | Some r => Ret r
  | None => Raise (NameError "results")
  end.

(** [from_records] iterates over its argument: a generator runs now. *)
Definition iterate (results : Results) : Prog (list Row) :=
  match results with
  | Rows rows => Ret rows
  | Generator body => body
  end.

(** The [__main__] block. *)
Definition main (given : option string) : Prog unit :=
  mode <- parse_args given ;;
  call (print [Lit ("Started benchmark: " ++ str_mode mode)]) ;;
  results <- dispatch mode ;;
  let save_file := str_mode mode ++ ".csv" in
  results <- read_results results ;;
  rows <- iterate results ;;
  df <- call (DataFrame_from_records rows) ;;
  call (DataFrame_to_csv df save_file) ;;
  call (print [Lit ("Finished benchmark: " ++ str_mode mode
                    ++ " saved results to " ++ save_file)]) ;;
  grouped <- call (DataFrame_groupby_first df ["m"; "k"; "n"; "eval_batch_size"]) ;;
  call (print [Str grouped]).

(** ** Runs of composed programs *)

Lemma run_Do {A} (W : World) (o : Op) (k : Ans o -> Prog A) t fs :
  run W (Do o k) t fs =
    match perform W o t fs with
    | Raised e =>
        {| trace := [Called o (Raised e)]; files := fs; result := Raised e |}
    | Returned v =>
        let r := run W (k v) (S t) (after_call o fs) in
        {| trace := Called o (Returned v) :: trace r;
           files := files r;
           result := result r |}
    end.
Proof. reflexivity. Qed.

(** Sequencing: the second program starts where the first one stopped, and
    does not start at all when the first one raised. *)
Lemma run_bind {A B} (W : World) (p : Prog A) (f : A -> Prog B) t fs :
  run W (bind p f) t fs =
    let r := run W p t fs in
    match result r with
    | Raised e => {| trace := trace r; files := files r; result := Raised e |}
    | Returned a =>
        let r' := run W (f a) (t + length (trace r))%nat (files r) in
        {| trace := trace r ++ trace r'; files := files r'; result := result r' |}
    end.
Proof.
  revert t fs. induction p as [a|e|o k IH]; intros t fs; cbn [bind run].
  - cbn. rewrite Nat.add_0_r. now destruct (run W (f a) t fs).
  - reflexivity.
  - destruct (perform W o t fs) as [v|e]; [|reflexivity].
    rewrite IH. cbn.
    destruct (result (run W (k v) (S t) (after_call o fs))); cbn; [|reflexivity].
    now rewrite Nat.add_succ_r.
Qed.

(** An outcome reached after the events [pre], kept latest first. *)
Definition prepend {A} (pre : list Event) (r : Outcome A) : Outcome A :=
  {| trace := rev_append pre (trace r); files := files r; result := result r |}.

(** Case analysis on the next call of a run. *)
Lemma run_Do_case {A} (W : World) (o : Op) (k : Ans o -> Prog A) t fs fs' pre
    (P : Outcome A -> Prop) :
  after_call o fs = fs' ->
  (forall e, perform W o t fs = Raised e ->
     P (prepend pre
          {| trace := [Called o (Raised e)]; files := fs; result := Raised e |})) ->
  (forall v, perform W o t fs = Returned v ->
     P (prepend (Called o (Returned v) :: pre) (run W (k v) (S t) fs'))) ->
  P (prepend pre (run W (Do o k) t fs)).
Proof.
  intros <- Hraise Hret. rewrite run_Do.
  destruct (perform W o t fs) as [v|e];
    [apply (Hret v eq_refl)|apply (Hraise e eq_refl)].
Qed.

(** [run_start] abstracts the goal over the run it mentions; [step_run]
    then follows the program one call at a time, splitting on whether the
    call raised. *)
Ltac run_start :=
  lazymatch goal with
  | |- context [@run ?A ?W ?p ?t ?fs] =>
      pattern (@run A W p t fs);
      lazymatch goal with
      | |- ?P _ =>
          let Pn := fresh "P" in
          set (Pn := P); change (Pn (prepend [] (@run A W p t fs)))
      end
  end.

Ltac files_after o fs :=
  let c := eval lazy in (creates_file o) in
  lazymatch c with
  | Some ?path => constr:(({[ path ]} ∪ fs) : Files)
  | None => constr:(fs)
  end.

Ltac step_run :=
  lazymatch goal with
  | |- ?P (prepend ?pre (@run ?A ?W ?p ?t ?fs)) =>
      let p' := eval hnf in p in
      lazymatch p' with
      | Do ?o ?k =>
          let fs' := files_after o fs in
          refine (@run_Do_case A W o k t fs fs' pre P eq_refl _ _);
          [ let e := fresh "e" in let E := fresh "E" in intros e E
          | let v := fresh "v" in let E := fresh "E" in intros v E ]
      | Ret ?a =>
          change (P (prepend pre {| trace := []; files := fs; result := Returned a |}))
      | Raise ?e =>
          change (P (prepend pre {| trace := []; files := fs; result := Raised e |}))
      | _ =>
          let p'' := eval cbn [bind] in p' in
          let p'' := eval cbv beta delta [assert truediv] in p'' in
          lazymatch p'' with
          | context [if ?b then _ else _] =>
              change (P (prepend pre (@run A W p'' t fs)));
              let E := fresh "E" in destruct b eqn:E
          end
      end
  end.

Ltac run_done :=
  lazymatch goal with
  | P := _ |- ?P' (prepend _ _) =>
      subst P'; cbv beta delta [prepend];
      cbn [rev_append trace files result]
  end.

Ltac run_cases := run_start; repeat step_run; run_done.

(** ** The order of a comparison *)

Definition timer_event (ev : Event) : bool :=
  match op_of ev with
  | Timer _ _ | blocked_autorange _ => true
  | _ => false
  end.

#[local] Set Warnings "-inexact-float".

(** The event is a closeness check with [rtol = atol = 1e-3] that
    answered [True]. *)
Definition passed_check (ev : Event) : bool :=
  match ev with
  | Called o r =>
      match o return Res (Ans o) -> bool with
      | torch_allclose _ _ rtol atol => fun r =>
          match r with
          | Returned true => PrimFloat.eqb rtol 1e-3 && PrimFloat.eqb atol 1e-3
          | _ => false
          end
      | _ => fun _ => false
      end r
  end.

(** Every timing event of the trace has a passed check before it. *)
Fixpoint timed_after_check (checked : bool) (tr : list Event) : bool :=
  match tr with
  | [] => true
  | ev :: tr' =>
      (if timer_event ev then checked else true)
      && timed_after_check (checked || passed_check ev) tr'
  end.

Lemma timed_after_check_sound tr :
  forall checked, timed_after_check checked tr = true ->
  forall pre ev post, tr = (pre ++ ev :: post)%list -> timer_event ev = true ->
  checked = true \/ exists ev', In ev' pre /\ passed_check ev' = true.
Proof.
  induction tr as [|ev0 tr IH]; intros checked H pre ev post Heq Hev.
  - now destruct pre.
  - cbn in H. apply andb_prop in H as [H1 H2].
    destruct pre as [|ev1 pre]; cbn in Heq; injection Heq as -> ->.
    + rewrite Hev in H1. now left.
    + destruct (IH _ H2 pre ev post eq_refl Hev) as [Hc|(ev' & Hin & Hp)].
      * apply orb_prop in Hc as [->|Hp]; [now left|].
        right. exists ev1. split; [now left|assumption].
      * right. exists ev'. split; [now right|assumption].
Qed.

(** A world in which every call returns: handles are [0], the check
    passes and a measurement's median is one second. *)
Definition default_ans (o : Op) : Ans o :=
  match o return Ans o with
  | Module_init | nn_Linear _ _ | getattr _ _ => 0%nat
  | Module_half _ | Module_cuda _ | Module_eval _ | Module_type _ _ => 0%nat
  | Module_call _ _ | Module_state_dict _ => 0%nat
  | torch_randn _ _ _ | torch_randint _ _ _ _ | torch_load _ => 0%nat
  | torch_allclose _ _ _ _ => true
  | cuda_memory_allocated => 0
  | cuda_memory_summary => ""
  | WeightNormSparsifier _ | Sparsifier_convert _ _ _ _ => 0%nat
  | get_alg_id _ => 0
  | Timer _ _ | blocked_autorange _ => 0%nat
  | Measurement_median _ => 1%float
  | open_ _ _ => 0%nat
  | fileno _ | stdout_fileno | os_dup _ | os_stat_size _ => 0
  | DataFrame_from_records _ | DataFrame_groupby_first _ _ => 0%nat
  | Module_setattr _ _ _ | Module_load_state_dict _ _ | torch_save _ _
  | cuda_empty_cache | Sparsifier_prepare _ _ _ | Sparsifier_step _
  | Sparsifier_squash_mask _ | print _ | pprint _ | os_dup2 _ _
  | tqdm _ _ | DataFrame_to_csv _ _ => tt
  end.

Definition healthy : World := fun o _ => Returned (default_ans o).

Ltac destruct_units :=
  repeat match goal with
  | v : ?T |- _ =>
      let T' := eval hnf in T in
      lazymatch T' with unit => destruct v end
  end.

(** C1.  A call of [compare_linear] that returns has made exactly these
    calls, in this order, each reading what the earlier ones returned.  It
    built the dense model: [nn.Linear(k, m)] stored under [linear], then
    [.half()], [.cuda()] and [.eval()], which gives [model].  It drew the
    input [x] on the device and in the dtype of [model.linear.weight].  It
    built a [WeightNormSparsifier] with [sparsity_level = 1.0],
    [sparse_block_shape = (1, 4)] and [zeros_per_block = 2], prepared it on
    [model] for ["linear.weight"], stepped it, converted [model] with the
    mapping from [nn.Linear] to [cuSPARSELtLinear], which gives
    [sparse_model], and squashed the mask.  With standard output sent to
    [/dev/null], it ran [model.linear] on [x] and [sparse_model.linear] on
    the same [x], and [torch.allclose] on the two outputs with
    [rtol = atol = 1e-3] answered [True].  Only then, after reading the
    algorithm id and drawing a second input [x'], it timed
    ["sparse_model(input_tensor)"] with [sparse_model] and [x'], and then
    ["model(input_tensor)"] with [model] and [x'].  It put standard output
    back, emptied the cache three times and read the medians.  The row it
    returns holds the two medians times 1000 and the dense median divided
    by the sparse one, which is not zero.  In every run, returning or not,
    no timing call is made before a passed closeness check. *)
Theorem compare_linear_sequence (W : World) (m k n batch_size : Z)
    (init_batch_size : option Z) (t : nat) (fs : Files) :
  let r := run W (compare_linear m k n batch_size init_batch_size) t fs in
  (forall row, result r = Returned row ->
   exists (self linear half_model cuda_model model : Handle)
          (linear1 weight1 device linear2 weight2 dtype x : Handle)
          (pruner sparse_model devnull : Handle)
          (stdout_fd oldstdout_fno devnull_fd : Z)
          (dense_linear dense_out sparse_linear sparse_out : Handle)
          (sparse_linear' cslt : Handle) (alg_id : Z)
          (linear3 weight3 device' linear4 weight4 dtype' x' : Handle)
          (sparse_timer sparse_measurement dense_timer dense_measurement : Handle)
          (sparse_median dense_median dense_median' sparse_median' : float),
     trace r =
       [Called Module_init (Returned self);
        Called (nn_Linear k m) (Returned linear);
        Called (Module_setattr self "linear" linear) (Returned tt);
        Called (Module_half self) (Returned half_model);
        Called (Module_cuda half_model) (Returned cuda_model);
        Called (Module_eval cuda_model) (Returned model);
        Called (getattr model "linear") (Returned linear1);
        Called (getattr linear1 "weight") (Returned weight1);
        Called (getattr weight1 "device") (Returned device);
        Called (getattr model "linear") (Returned linear2);
        Called (getattr linear2 "weight") (Returned weight2);
        Called (getattr weight2 "dtype") (Returned dtype);
        Called (torch_randn
                  [match init_batch_size with
                   | Some i => if Z.eqb i 0 then batch_size else i
                   | None => batch_size
                   end; n; k] device dtype) (Returned x);
        Called (WeightNormSparsifier
                  {| sparsity_level := 1%float;
                     sparse_block_shape := (1, 4);
                     zeros_per_block := 2 |}) (Returned pruner);
        Called (Sparsifier_prepare pruner model
                  [[("tensor_fqn", "linear.weight")]]) (Returned tt);
        Called (Sparsifier_step pruner) (Returned tt);
        Called (Sparsifier_convert pruner model
                  [(cls_nn_Linear, cls_cuSPARSELtLinear)] None)
               (Returned sparse_model);
        Called (Sparsifier_squash_mask pruner) (Returned tt);
        Called (open_ "/dev/null" "w") (Returned devnull);
        Called stdout_fileno (Returned stdout_fd);
        Called (os_dup stdout_fd) (Returned oldstdout_fno);
        Called (fileno devnull) (Returned devnull_fd);
        Called (os_dup2 devnull_fd 1) (Returned tt);
        Called (getattr model "linear") (Returned dense_linear);
        Called (Module_call dense_linear x) (Returned dense_out);
        Called (getattr sparse_model "linear") (Returned sparse_linear);
        Called (Module_call sparse_linear x) (Returned sparse_out);
        Called (torch_allclose dense_out sparse_out 1e-3 1e-3) (Returned true);
        Called (getattr sparse_model "linear") (Returned sparse_linear');
        Called (getattr sparse_linear' "cslt") (Returned cslt);
        Called (get_alg_id cslt) (Returned alg_id);
        Called (getattr model "linear") (Returned linear3);
        Called (getattr linear3 "weight") (Returned weight3);
        Called (getattr weight3 "device") (Returned device');
        Called (getattr model "linear") (Returned linear4);
        Called (getattr linear4 "weight") (Returned weight4);
        Called (getattr weight4 "dtype") (Returned dtype');
        Called (torch_randn [batch_size; n; k] device' dtype') (Returned x');
        Called (Timer "sparse_model(input_tensor)"
                  [("input_tensor", x'); ("sparse_model", sparse_model)])
               (Returned sparse_timer);
        Called (blocked_autorange sparse_timer) (Returned sparse_measurement);
        Called (Timer "model(input_tensor)"
                  [("input_tensor", x'); ("model", model)])
               (Returned dense_timer);
        Called (blocked_autorange dense_timer) (Returned dense_measurement);
        Called (os_dup2 oldstdout_fno 1) (Returned tt);
        Called cuda_empty_cache (Returned tt);
        Called cuda_empty_cache (Returned tt);
        Called cuda_empty_cache (Returned tt);
        Called (Measurement_median sparse_measurement) (Returned sparse_median);
        Called (Measurement_median dense_measurement) (Returned dense_median);
        Called (Measurement_median dense_measurement) (Returned dense_median');
        Called (Measurement_median sparse_measurement) (Returned sparse_median')]
     /\ PrimFloat.eqb sparse_median' 0 = false
     /\ row =
       [("m", VInt m);
        ("k", VInt k);
        ("n", VInt n);
        ("eval_batch_size", VInt batch_size);
        ("init_batch_size",
         VInt match init_batch_size with
              | Some i => if Z.eqb i 0 then batch_size else i
              | None => batch_size
              end);
        ("alg_id", VInt alg_id);
        ("sparse_latency (ms)", VFloat (sparse_median * 1000)%float);
        ("dense_latency (ms)", VFloat (dense_median * 1000)%float);
        ("speedup (d/s)", VFloat (dense_median' / sparse_median')%float)])
  /\ (forall pre ev post, trace r = (pre ++ ev :: post)%list -> timer_event ev = true ->
      exists ev', In ev' pre /\ passed_check ev' = true).
Proof.
  intros r. subst r. split.
  - run_cases; intros row Hrow; try discriminate Hrow.
    injection Hrow as <-. destruct_units.
    repeat eexists. assumption.
  - assert (timed_after_check false
              (trace (run W (compare_linear m k n batch_size init_batch_size) t fs))
            = true) as Hchk.
    { run_cases; reflexivity. }
    intros pre ev post Heq Hev.
    destruct (timed_after_check_sound _ _ Hchk pre ev post Heq Hev) as [?|?];
      [discriminate|assumption].
Qed.

(** In the world where every call returns, the comparison of the first
    BERT shape returns a row, having made the fifty calls above. *)
Lemma compare_linear_sequence_witness :
  let r := run healthy (compare_linear 3072 1024 16384 1 None) 0 ∅ in
  exists row, result r = Returned row /\ length (trace r) = 50%nat.
Proof.
  intros r. eexists. split; [reflexivity|].
  pose proof (proj1 (compare_linear_sequence healthy 3072 1024 16384 1 None 0 ∅)
                _ eq_refl) as H.
  fold r in H.
  repeat match type of H with
         | exists _, _ => let x := fresh "x" in destruct H as [x H]
         end.
  destruct H as [Htrace _]. rewrite Htrace. reflexivity.
Defined.

(** ** What holds of every program *)

(** A call that raises is the last call of the run, and the run ends with
    its exception: nothing catches it. *)
Lemma run_stops_at_raise {A} (W : World) (p : Prog A) :
  forall t fs pre ev post e,
    trace (run W p t fs) = (pre ++ ev :: post)%list ->
    raised_of ev = Some e ->
    post = [] /\ result (run W p t fs) = Raised e.
Proof.
  induction p as [a|e0|o k IH]; intros t fs pre ev post e Htr Hev.
  - destruct pre; discriminate Htr.
  - destruct pre; discriminate Htr.
  - rewrite run_Do in *. destruct (perform W o t fs) as [v|e1]; cbn in *.
    + destruct pre as [|ev1 pre]; cbn in Htr; injection Htr as <- Htr.
      * discriminate Hev.
      * eapply IH; eassumption.
    + destruct pre as [|ev1 pre]; cbn in Htr; injection Htr as <- Htr.
      * cbn in Hev. injection Hev as ->. now subst.
      * destruct pre; discriminate Htr.
Qed.

(** Every call a program can make satisfies [P]. *)
Fixpoint Calls {A} (P : Op -> Prop) (p : Prog A) : Prop :=
  match p with
  | Ret _ | Raise _ => True
  | Do o k => P o /\ forall v, Calls P (k v)
  end.

Lemma Calls_Do {A} (P : Op -> Prop) o (k : Ans o -> Prog A) :
  P o -> (forall v, Calls P (k v)) -> Calls P (Do o k).
Proof. intros. now split. Qed.

Lemma Calls_bind {A B} (P : Op -> Prop) (p : Prog A) (f : A -> Prog B) :
  Calls P p -> (forall a, Calls P (f a)) -> Calls P (bind p f).
Proof.
  intros Hp Hf. induction p as [a|e|o k IH]; cbn in *; [apply Hf|exact I|].
  destruct Hp as [Ho Hk]. split; auto.
Qed.

Lemma Calls_bind_assoc {A B C} (P : Op -> Prop) (p : Prog A)
    (f : A -> Prog B) (g : B -> Prog C) :
  Calls P (bind p (fun x => bind (f x) g)) -> Calls P (bind (bind p f) g).
Proof.
  induction p as [a|e|o k IH]; cbn; [tauto|tauto|].
  intros [Ho Hk]. split; auto.
Qed.

Lemma Calls_mapM {A B} (P : Op -> Prop) (f : A -> Prog B) (xs : list A) :
  (forall x, Calls P (f x)) -> Calls P (mapM f xs).
Proof.
  intros Hf. induction xs as [|x xs IH]; cbn [mapM]; [exact I|].
  apply Calls_bind; [apply Hf|]. intros y.
  apply Calls_bind; [apply IH|]. intros; exact I.
Qed.

Lemma Calls_run {A} (P : Op -> Prop) (p : Prog A) (W : World) :
  Calls P p -> forall t fs, Forall (fun ev => P (op_of ev)) (trace (run W p t fs)).
Proof.
  induction p as [a|e|o k IH]; intros Hp t fs; [constructor|constructor|].
  destruct Hp as [Ho Hk].
  rewrite run_Do. destruct (perform W o t fs) as [v|e]; cbn.
  - constructor; [exact Ho|now apply IH].
  - constructor; [exact Ho|constructor].
Qed.

Ltac head_of t := lazymatch t with ?f _ => head_of f | _ => t end.

(** Breaks a program into its calls.  Sequencing is normalised first,
    so that a value returned by one part reaches the next. *)
Ltac calls_step :=
  cbn [bind call read_results iterate];
  lazymatch goal with
  | |- Calls ?P (Do ?o ?k) => refine (@Calls_Do _ P o k _ (fun _ => _))
  | |- Calls _ (Ret _) => exact I
  | |- Calls _ (Raise _) => exact I
  | |- Calls _ (bind (bind _ _) _) => apply Calls_bind_assoc
  | |- Calls _ (bind (if ?b then _ else _) _) => destruct b
  | |- Calls _ (bind (match ?x with _ => _ end) _) => destruct x
  | |- Calls _ (bind (dispatch _) _) => unfold dispatch
  | |- Calls _ (bind _ _) => apply Calls_bind; [|intros ?]
  | |- Calls _ (mapM _ _) => apply Calls_mapM; intros ?
  | |- Calls _ (if ?b then _ else _) => destruct b
  | |- Calls _ (match ?x with _ => _ end) => destruct x
  | |- Calls _ (let _ := _ in _) => cbv zeta
  | |- Calls _ ?p => let h := head_of p in unfold h
  end.

(** The exceptions a program raises by itself: [Q prev e] holds wherever
    it raises [e] right after the event [prev]. *)
Fixpoint Raises {A} (Q : option Event -> Exn -> Prop) (prev : option Event)
    (p : Prog A) : Prop :=
  match p with
  | Ret _ => True
  | Raise e => Q prev e
  | Do o k => forall v, Raises Q (Some (Called o (Returned v))) (k v)
  end.

(** The last event of a trace, [prev] when it is empty. *)
Fixpoint last_of (prev : option Event) (tr : list Event) : option Event :=
  match tr with
  | [] => prev
  | ev :: tr' => last_of (Some ev) tr'
  end.

Definition last_event (tr : list Event) : option Event := last_of None tr.

Lemma Raises_bind {A B} Q prev (p : Prog A) (f : A -> Prog B) :
  Raises Q prev p -> (forall a prev', Raises Q prev' (f a)) ->
  Raises Q prev (bind p f).
Proof.
  intros Hp Hf. revert prev Hp.
  induction p as [a|e|o k IH]; intros prev Hp; cbn in *; auto.
Qed.

Lemma Raises_bind_assoc {A B C} Q prev (p : Prog A)
    (f : A -> Prog B) (g : B -> Prog C) :
  Raises Q prev (bind p (fun x => bind (f x) g)) ->
  Raises Q prev (bind (bind p f) g).
Proof.
  revert prev. induction p as [a|e|o k IH]; intros prev; cbn; auto.
Qed.

Lemma Raises_mapM {A B} Q (f : A -> Prog B) (xs : list A) :
  (forall x prev, Raises Q prev (f x)) -> forall prev, Raises Q prev (mapM f xs).
Proof.
  intros Hf. induction xs as [|x xs IH]; intros prev; cbn [mapM]; [exact I|].
  apply Raises_bind; [apply Hf|]. intros y prev'.
  apply Raises_bind; [apply IH|]. intros; exact I.
Qed.

(** A run that ends with an exception ends either with a call that raised
    it or at a place where the program raises it by itself. *)
Lemma Raises_run {A} Q (p : Prog A) (W : World) :
  forall prev, Raises Q prev p -> forall t fs e,
  result (run W p t fs) = Raised e ->
  (exists o, last_of prev (trace (run W p t fs)) = Some (Called o (Raised e)))
  \/ Q (last_of prev (trace (run W p t fs))) e.
Proof.
  induction p as [a|e0|o k IH]; intros prev Hp t fs e Hres.
  - discriminate Hres.
  - cbn in Hres. injection Hres as <-. right. exact Hp.
  - rewrite run_Do in *. destruct (perform W o t fs) as [v|e1]; cbn in *.
    + apply IH; [apply Hp|exact Hres].
    + injection Hres as <-. left. now exists o.
Qed.

Ltac calls_auto tac :=
  repeat (cbv beta; first [solve [tac] | calls_step]).

(** ** The pruner *)

(** Elements of a sparse block, and how many of them stay nonzero. *)
Definition block_size (cfg : SparsifierConfig) : Z :=
  fst (sparse_block_shape cfg) * snd (sparse_block_shape cfg).

Definition nonzeros_per_block (cfg : SparsifierConfig) : Z :=
  block_size cfg - zeros_per_block cfg.

(** The call builds no pruner, or the 2-of-4 one. *)
Definition prunes_2_of_4 (o : Op) : Prop :=
  forall cfg, o = WeightNormSparsifier cfg ->
    sparsity_level cfg = 1%float /\
    sparse_block_shape cfg = (1, 4) /\
    zeros_per_block cfg = 2 /\
    block_size cfg = 4 /\
    nonzeros_per_block cfg = 2.

Ltac prunes_2_of_4_tac :=
  intros ? ?; first [discriminate | congruence
                    | match goal with H : _ = _ |- _ => injection H as <- end;
                      repeat split].

Lemma compare_linear_prunes m k n batch_size init_batch_size :
  Calls prunes_2_of_4 (compare_linear m k n batch_size init_batch_size).
Proof. calls_auto prunes_2_of_4_tac. Qed.

Lemma compare_memory_prunes m k n batch_size :
  Calls prunes_2_of_4 (compare_memory m k n batch_size).
Proof. calls_auto prunes_2_of_4_tac. Qed.

Lemma compare_dtype_prunes m k n batch_size dtype :
  Calls prunes_2_of_4 (compare_dtype m k n batch_size dtype).
Proof. calls_auto prunes_2_of_4_tac. Qed.

Lemma main_prunes given : Calls prunes_2_of_4 (main given).
Proof.
  pose proof compare_linear_prunes. pose proof compare_memory_prunes.
  pose proof compare_dtype_prunes.
  unfold main.
  calls_auto ltac:(first [prunes_2_of_4_tac | auto]).
Qed.

(** Follows a program to the places where it raises by itself. *)
Ltac raises_step tac :=
  cbv beta; cbn [bind call read_results iterate];
  lazymatch goal with
  | |- Raises ?Q ?prev (Do ?o ?k) =>
      change (forall v, Raises Q (Some (Called o (Returned v))) (k v)); intros ?
  | |- Raises _ _ (Ret _) => exact I
  | |- Raises ?Q ?prev (Raise ?e) => change (Q prev e); solve [tac]
  | |- Raises _ _ (bind (bind _ _) _) => apply Raises_bind_assoc
  | |- Raises _ _ (bind (if ?b then _ else _) _) => destruct b eqn:?
  | |- Raises _ _ (bind (match ?x with _ => _ end) _) => destruct x eqn:?
  | |- Raises _ _ (bind (mapM _ _) _) =>
      apply Raises_bind; [apply Raises_mapM; intros ? ?|intros ? ?]
  | |- Raises _ _ (bind ?p _) =>
      first [ apply Raises_bind; [solve [tac]|intros ? ?]
            | let h := head_of p in unfold h ]
  | |- Raises _ _ (if ?b then _ else _) => destruct b eqn:?
  | |- Raises _ _ (match ?x with _ => _ end) => destruct x eqn:?
  | |- Raises _ _ (let _ := _ in _) => cbv zeta
  | |- Raises _ _ ?p => first [ solve [tac] | let h := head_of p in unfold h ]
  end.

(** ** Failures *)

Lemma choices_spec (v : string) :
  existsb (String.eqb v) choices = true <-> In v choices.
Proof.
  rewrite existsb_exists. split.
  - intros (x & Hin & Heq). apply String.eqb_eq in Heq. now subst.
  - intros Hin. exists v. split; [assumption|apply String.eqb_refl].
Qed.

(** Where the script raises by itself: the failed assertion, the division
    by a zero median, the unbound name and the rejected command line. *)
Definition raised_by_script (given : option string) (prev : option Event)
    (e : Exn) : Prop :=
  (e = AssertionError /\
   exists a b, prev = Some (Called (torch_allclose a b tol tol) (Returned false)))
  \/ (e = ZeroDivisionError /\
      exists measurement z,
        prev = Some (Called (Measurement_median measurement) (Returned z)) /\
        PrimFloat.eqb z 0 = true)
  \/ (e = NameError "results" /\ given = None)
  \/ (e = SystemExit 2 /\ prev = None /\
      exists v, given = Some v /\ ~ In v choices).

Ltac raised_by_script_tac :=
  first
    [ left; split; [reflexivity|eauto]
    | right; left; split; [reflexivity|eauto]
    | right; right; left; split; reflexivity ].

Lemma compare_linear_raises given m k n batch_size init_batch_size prev :
  Raises (raised_by_script given) prev
    (compare_linear m k n batch_size init_batch_size).
Proof. repeat raises_step raised_by_script_tac. Qed.

Lemma compare_memory_raises given m k n batch_size prev :
  Raises (raised_by_script given) prev (compare_memory m k n batch_size).
Proof. repeat raises_step raised_by_script_tac. Qed.

Lemma compare_dtype_raises given m k n batch_size dtype prev :
  Raises (raised_by_script given) prev (compare_dtype m k n batch_size dtype).
Proof. repeat raises_step raised_by_script_tac. Qed.

Lemma main_raises given : Raises (raised_by_script given) None (main given).
Proof.
  pose proof (compare_linear_raises given) as Hl.
  pose proof (compare_memory_raises given) as Hm.
  pose proof (compare_dtype_raises given) as Hd.
  unfold main, parse_args. destruct given as [v|].
  - destruct (existsb (String.eqb v) choices) eqn:Hv.
    + cbn [existsb choices] in Hv.
      repeat raises_step ltac:(first [ apply Hl | apply Hm | apply Hd ]).
      (* no branch of the dispatch was taken: [v] is not a choice *)
      exfalso. cbn [mode_is] in *.
      repeat match goal with H : String.eqb v _ = false |- _ => rewrite H in Hv end.
      discriminate Hv.
    + cbn [bind]. right. right. right. split; [reflexivity|split; [reflexivity|]].
      exists v. split; [reflexivity|]. rewrite <- choices_spec, Hv. discriminate.
  - repeat raises_step ltac:(first [ raised_by_script_tac ]).
Qed.

(** C3.  The script has no error handling.  A call that raises is the last
    call of the run and the run ends with its exception.  A run that ends
    with an exception no call raised ended at the closeness assertion (the
    check with [rtol = atol = 1e-3] answered [False]), at the division by a
    zero median, at the unbound name [results] (no mode was given) or at
    argparse's exit for a value outside the choices. *)
Theorem benchmark_has_no_error_handling (W : World) (given : option string)
    (t : nat) (fs : Files) :
  let r := run W (main given) t fs in
  (forall pre ev post e,
     trace r = (pre ++ ev :: post)%list -> raised_of ev = Some e ->
     post = [] /\ result r = Raised e)
  /\ (forall e, result r = Raised e ->
      (exists o, last_event (trace r) = Some (Called o (Raised e)))
      \/ (e = AssertionError /\
          exists a b, last_event (trace r) =
            Some (Called (torch_allclose a b tol tol) (Returned false)))
      \/ (e = ZeroDivisionError /\
          exists measurement z,
            last_event (trace r) =
              Some (Called (Measurement_median measurement) (Returned z)) /\
            PrimFloat.eqb z 0 = true)
      \/ (e = NameError "results" /\ given = None)
      \/ (e = SystemExit 2 /\ trace r = [] /\
          exists v, given = Some v /\ ~ In v choices)).
Proof.
  intros r. split.
  - intros pre ev post e. apply run_stops_at_raise.
  - intros e Hres.
    destruct (Raises_run _ _ W None (main_raises given) t fs e Hres)
      as [Hcall|[Hassert|[Hzero|[Hname|(He & Hlast & Hv)]]]].
    + left. exact Hcall.
    + right. left. exact Hassert.
    + right. right. left. exact Hzero.
    + right. right. right. left. exact Hname.
    + right. right. right. right. split; [exact He|split; [|exact Hv]].
      fold r in Hlast. destruct (trace r) as [|ev tr] eqn:Htr; [reflexivity|].
      exfalso. clear - Hlast. cbn in Hlast.
      revert ev Hlast. induction tr; intros; cbn in *; [discriminate|eauto].
Qed.

Definition builds_pruner (ev : Event) : bool :=
  match op_of ev with
  | WeightNormSparsifier _ => true
  | _ => false
  end.

(** C8.  Every [WeightNormSparsifier] built in a run of [compare_linear],
    of [compare_memory] or of the whole script, in any world, has
    [sparsity_level = 1.0], [sparse_block_shape = (1, 4)] and
    [zeros_per_block = 2]: blocks of four weights of which two stay
    nonzero.  A comparison that returns has built one. *)
Theorem every_pruner_is_2_of_4 (W : World) (t : nat) (fs : Files) :
  (forall m k n batch_size init_batch_size,
     let r := run W (compare_linear m k n batch_size init_batch_size) t fs in
     Forall (fun ev => prunes_2_of_4 (op_of ev)) (trace r) /\
     (forall row, result r = Returned row ->
        existsb builds_pruner (trace r) = true))
  /\ (forall m k n batch_size,
     let r := run W (compare_memory m k n batch_size) t fs in
     Forall (fun ev => prunes_2_of_4 (op_of ev)) (trace r) /\
     (forall row, result r = Returned row ->
        existsb builds_pruner (trace r) = true))
  /\ (forall given,
     Forall (fun ev => prunes_2_of_4 (op_of ev)) (trace (run W (main given) t fs))).
Proof.
  split; [|split].
  - intros m k n b init r. split.
    + apply Calls_run, compare_linear_prunes.
    + subst r. run_cases; intros row Hrow; try discriminate Hrow. reflexivity.
  - intros m k n b r. split.
    + apply Calls_run, compare_memory_prunes.
    + subst r. run_cases; intros row Hrow; try discriminate Hrow. reflexivity.
  - intros given. apply Calls_run, main_prunes.
Qed.

(** ** Running without a mode *)

Definition writes_csv (ev : Event) : bool :=
  match op_of ev with
  | DataFrame_to_csv _ _ => true
  | _ => false
  end.

(** C9.  Without [--mode], argparse returns [args.mode = None]; the script
    prints its first line, no branch of the dispatch binds [results], and
    the run ends with [NameError] at [from_records(results)] (or earlier,
    with the exception of the [print]).  No file was created and no CSV
    was written. *)
Theorem no_mode_is_a_NameError (W : World) (t : nat) (fs : Files) :
  let r := run W (main None) t fs in
  parse_args None = Ret None
  /\ dispatch None = Ret None
  /\ files r = fs
  /\ existsb writes_csv (trace r) = false
  /\ ((trace r = [Called (print [Lit "Started benchmark: None"]) (Returned tt)]
       /\ result r = Raised (NameError "results"))
      \/ (exists e,
            trace r = [Called (print [Lit "Started benchmark: None"]) (Raised e)]
            /\ result r = Raised e)).
Proof.
  intros r. subst r. split; [reflexivity|]. split; [reflexivity|].
  run_cases; destruct_units; repeat split; eauto.
Qed.

(** ** The memory mode *)

Definition saves_model (ev : Event) : bool :=
  match op_of ev with
  | torch_save _ _ => true
  | _ => false
  end.

(** The event is a [torch.load] of [path] that returned. *)
Definition loaded (path : string) (ev : Event) : bool :=
  match ev with
  | Called (torch_load p) (Returned _) => String.eqb p path
  | _ => false
  end.

(** Every [torch.save] of the trace comes after a load of the sparse and
    a load of the dense state dict. *)
Fixpoint saves_after_loads (sparse dense : bool) (tr : list Event) : bool :=
  match tr with
  | [] => true
  | ev :: tr' =>
      (if saves_model ev then sparse && dense else true)
      && saves_after_loads (sparse || loaded "sparse_model.pt" ev)
                           (dense || loaded "dense_model.pt" ev) tr'
  end.

Lemma saves_after_loads_sound tr :
  forall sparse dense, saves_after_loads sparse dense tr = true ->
  forall pre ev post, tr = (pre ++ ev :: post)%list -> saves_model ev = true ->
  (sparse = true \/ exists ev', In ev' pre /\ loaded "sparse_model.pt" ev' = true)
  /\ (dense = true \/ exists ev', In ev' pre /\ loaded "dense_model.pt" ev' = true).
Proof.
  induction tr as [|ev0 tr IH]; intros sparse dense H pre ev post Heq Hev.
  - now destruct pre.
  - cbn [saves_after_loads] in H. apply andb_prop in H as [H1 H2].
    destruct pre as [|ev1 pre]; cbn in Heq; injection Heq as -> ->.
    + rewrite Hev in H1. apply andb_prop in H1 as [-> ->]. split; now left.
    + destruct (IH _ _ H2 pre ev post eq_refl Hev) as [Hs Hd]. split.
      * destruct Hs as [Hs|(ev' & Hin & Hl)].
        -- apply orb_prop in Hs as [->|Hl]; [now left|].
           right. exists ev1. split; [now left|assumption].
        -- right. exists ev'. split; [now right|assumption].
      * destruct Hd as [Hd|(ev' & Hin & Hl)].
        -- apply orb_prop in Hd as [->|Hl]; [now left|].
           right. exists ev1. split; [now left|assumption].
        -- right. exists ev'. split; [now right|assumption].
Qed.


Lemma perform_missing (W : World) (o : Op) t fs path :
  missing o fs = Some path -> perform W o t fs = Raised (FileNotFoundError path).
Proof. unfold perform. now intros ->. Qed.

Lemma missing_load path (fs : Files) :
  path ∉ fs -> missing (torch_load path) fs = Some path.
Proof. intros H. unfold missing. cbn. now destruct (decide (path ∈ fs)). Qed.

Lemma load_outcome (W : World) path t (fs : Files) (r : Res Handle) :
  perform W (torch_load path) t fs = r ->
  (path ∈ fs /\ W (torch_load path) t = r)
  \/ ((path ∉ fs) /\ r = Raised (FileNotFoundError path)).
Proof.
  unfold perform, missing. cbn. destruct (decide (path ∈ fs)); intros <-; auto.
Qed.

(** The world raises nothing by itself. *)
Definition never_raises (W : World) : Prop :=
  forall o t, exists v, W o t = Returned v.

Lemma never_raises_perform (W : World) o t fs e :
  never_raises W -> perform W o t fs = Raised e ->
  exists path, missing o fs = Some path /\ e = FileNotFoundError path.
Proof.
  intros HW. unfold perform. destruct (missing o fs) as [path|].
  - intros [= <-]. now exists path.
  - destruct (HW o t) as [v ->]. discriminate.
Qed.

Lemma memory_mode_saves_after_loads (W : World) t fs :
  saves_after_loads false false (trace (run W (main (Some "memory")) t fs)) = true.
Proof. run_cases; reflexivity. Qed.

Lemma memory_mode_fresh (W : World) t (fs : Files) :
  "sparse_model.pt" ∉ fs \/ "dense_model.pt" ∉ fs ->
  let r := run W (main (Some "memory")) t fs in
  (exists e, result r = Raised e)
  /\ files r = fs
  /\ existsb writes_csv (trace r) = false
  /\ existsb saves_model (trace r) = false
  /\ (never_raises W ->
      exists path, (path = "sparse_model.pt" \/ path = "dense_model.pt")
        /\ (path ∉ fs) /\ result r = Raised (FileNotFoundError path)).
Proof.
  intros Hfresh r. subst r. run_start.
  repeat (step_run;
          [ (* the call raised *)
          | (* the call returned: a load of a missing file cannot *)
            try match goal with
            | E : perform _ (torch_load ?path) _ fs = Returned _ |- _ =>
                apply load_outcome in E as [[?Hin _]|[_ E]]; [|discriminate E]
            end ]).
  all: run_done.
  all: try (exfalso; destruct Hfresh; contradiction).
  all: (split; [eexists; reflexivity|]); (split; [reflexivity|]);
    (split; [reflexivity|]); (split; [reflexivity|]).
  all: intros HW.
  all: match goal with
       | E : perform _ ?o _ _ = Raised ?e |- _ =>
           destruct (never_raises_perform _ _ _ _ _ HW E) as (path & Hm & ->)
       end.
  all: try discriminate Hm.
  all: unfold missing in Hm; cbn in Hm;
       match type of Hm with
       | context [decide (?p ∈ ?fs')] => destruct (decide (p ∈ fs')) as [|Hnot]
       end; [discriminate Hm|]; injection Hm as <-; eauto.
Qed.

Lemma healthy_never_raises : never_raises healthy.
Proof. intros o t. now exists (default_ans o). Qed.

(** C10.  In the memory mode every [torch.save] comes after a
    [torch.load] of ["sparse_model.pt"] and one of ["dense_model.pt"] have
    returned.  So when one of the two files is missing at the start, the run
    ends with an exception, with the working directory as it was: nothing
    saved, no CSV.  When no call raises by itself, the exception is the
    [FileNotFoundError] of a missing file. *)
Theorem memory_mode_loads_before_saving (W : World) (t : nat) (fs : Files) :
  let r := run W (main (Some "memory")) t fs in
  (forall pre ev post,
     trace r = (pre ++ ev :: post)%list -> saves_model ev = true ->
     (exists ev', In ev' pre /\ loaded "sparse_model.pt" ev' = true) /\
     (exists ev', In ev' pre /\ loaded "dense_model.pt" ev' = true))
  /\ ("sparse_model.pt" ∉ fs \/ "dense_model.pt" ∉ fs ->
      (exists e, result r = Raised e)
      /\ files r = fs
      /\ existsb writes_csv (trace r) = false
      /\ existsb saves_model (trace r) = false
      /\ (never_raises W ->
          exists path, (path = "sparse_model.pt" \/ path = "dense_model.pt")
            /\ (path ∉ fs) /\ result r = Raised (FileNotFoundError path))).
Proof.
  intros r. split.
  - intros pre ev post Heq Hev.
    destruct (saves_after_loads_sound _ _ _ (memory_mode_saves_after_loads W t fs)
                pre ev post Heq Hev) as [[?|?] [?|?]]; try discriminate. now split.
  - intros Hfresh. now apply memory_mode_fresh.
Qed.

(** With no file at all and a world that raises nothing, the memory mode
    ends with [FileNotFoundError]. *)
Lemma memory_mode_loads_before_saving_witness :
  ("sparse_model.pt" ∉ (∅ : Files)) /\
  exists path,
    result (run healthy (main (Some "memory")) 0 ∅) = Raised (FileNotFoundError path).
Proof.
  assert ("sparse_model.pt" ∉ (∅ : Files)) as Hfresh by set_solver.
  split; [exact Hfresh|].
  destruct (proj2 (memory_mode_loads_before_saving healthy 0 ∅) (or_introl Hfresh))
    as (_ & _ & _ & _ & Hpath).
  destruct (Hpath healthy_never_raises) as (path & _ & _ & Hres).
  exists path. exact Hres.
Defined.

(** ** The sweep of a mode and its CSV file *)

(** [row[key]] *)
Definition row_get (key : string) (row : Row) : option Value :=
  match List.find (fun kv => String.eqb (fst kv) key) row with
  | Some kv => Some (snd kv)
  | None => None
  end.

(** The shape a row records: [m], [k], [n] and [eval_batch_size]. *)
Definition row_shape (row : Row) : option (Z * Z * Z * Z) :=
  match row_get "m" row, row_get "k" row, row_get "n" row,
        row_get "eval_batch_size" row with
  | Some (VInt m), Some (VInt k), Some (VInt n), Some (VInt b) => Some (m, k, n, b)
  | _, _, _, _ => None
  end.

(** The shapes [(m, k, n, batch_size)] a mode measures, in order. *)
Definition sweep (mode : string) : list (Z * Z * Z * Z) :=
  if String.eqb mode "nvidia-bert" then
    map (fun '(m, k, n) => (m, k, n, 1)) bert_shapes
  else if String.eqb mode "nvidia-fixed-k" then
    map (fun mn => (mn, 10240, mn, 1)) mn_vals
  else if String.eqb mode "nvidia-fixed-mn" then
    map (fun k => (10240, k, 10240, 1)) k_vals
  else if String.eqb mode "distilbert-shapes" then
    map (fun '((m, k, n), batch_size) => (m, k, n, batch_size))
        (product distilbert_shapes distilbert_batch_sizes)
  else if String.eqb mode "alg-id-sweep" then
    (map (fun '(n, batch_size) => (768, 3072, n, batch_size))
         (product dim_range sweep_batch_sizes)
     ++ map (fun '(batch_size, _) => (768, 3072, 96, batch_size))
         (product sweep_batch_sizes sweep_batch_sizes))%list
  else if String.eqb mode "memory" then
    [(4096, 4096, 4096, 1)]
  else if String.eqb mode "int8-fp16-linear" then
    map (fun '(batch_size, _) => (768, 3072, 768, batch_size))
        (product dtype_batch_sizes dtypes)
  else [].

(** The data frames written to CSV files, with the file names. *)
Definition csv_written (ev : Event) : list (Handle * string) :=
  match ev with
  | Called (DataFrame_to_csv df path) (Returned _) => [(df, path)]
  | _ => []
  end.

Definition csv_writes (tr : list Event) : list (Handle * string) :=
  flat_map csv_written tr.

Definition csv_free (o : Op) : Prop :=
  match o with
  | DataFrame_to_csv _ _ => False
  | _ => True
  end.

Lemma csv_free_writes (tr : list Event) :
  Forall (fun ev => csv_free (op_of ev)) tr -> csv_writes tr = [].
Proof.
  induction 1 as [|ev tr Hev _ IH]; [reflexivity|].
  unfold csv_writes in *. cbn [flat_map]. rewrite IH.
  destruct ev as [o r]. destruct o; try reflexivity. destruct Hev.
Qed.

(** When a sequence returns, both parts returned. *)
Lemma run_bind_returned {A B} (W : World) (p : Prog A) (f : A -> Prog B) t fs b :
  result (run W (bind p f) t fs) = Returned b ->
  exists a,
    let rp := run W p t fs in
    let rf := run W (f a) (t + length (trace rp))%nat (files rp) in
    result rp = Returned a
    /\ result rf = Returned b
    /\ trace (run W (bind p f) t fs) = (trace rp ++ trace rf)%list
    /\ files (run W (bind p f) t fs) = files rf.
Proof.
  rewrite run_bind. cbv zeta.
  destruct (result (run W p t fs)) as [a|e] eqn:Hp; cbn; [|discriminate].
  intros Hf. exists a. auto.
Qed.

Lemma mapM_returned {A B} (f : A -> Prog B) (Q : A -> B -> Prop) :
  (forall x W t fs y, result (run W (f x) t fs) = Returned y -> Q x y) ->
  forall xs W t fs ys,
    result (run W (mapM f xs) t fs) = Returned ys -> Forall2 Q xs ys.
Proof.
  intros Hf. induction xs as [|x xs IH]; intros W t fs ys Hrun; cbn [mapM] in Hrun.
  - injection Hrun as <-. constructor.
  - apply run_bind_returned in Hrun as (y & Hy & Hrest & _).
    apply run_bind_returned in Hrest as (ys' & Hys & Hret & _).
    cbn in Hret. injection Hret as <-.
    constructor; [eapply Hf; eassumption|eapply IH; eassumption].
Qed.

Lemma Forall2_shapes {A} (g : A -> Z * Z * Z * Z) (xs : list A) (rows : list Row) :
  Forall2 (fun x row => row_shape row = Some (g x)) xs rows ->
  map row_shape rows = map Some (map g xs).
Proof. induction 1; cbn; [reflexivity|]. congruence. Qed.

Lemma compare_linear_shape (W : World) m k n batch_size init_batch_size t fs row :
  result (run W (compare_linear m k n batch_size init_batch_size) t fs)
    = Returned row ->
  row_shape row = Some (m, k, n, batch_size).
Proof. run_cases; intros Hrow; try discriminate Hrow. now injection Hrow as <-. Qed.

Lemma compare_memory_shape (W : World) m k n batch_size t fs row :
  result (run W (compare_memory m k n batch_size) t fs) = Returned row ->
  row_shape row = Some (m, k, n, batch_size).
Proof. run_cases; intros Hrow; try discriminate Hrow. now injection Hrow as <-. Qed.

Lemma compare_dtype_shape (W : World) m k n batch_size dtype t fs row :
  result (run W (compare_dtype m k n batch_size dtype) t fs) = Returned row ->
  row_shape row = Some (m, k, n, batch_size).
Proof. run_cases; intros Hrow; try discriminate Hrow. now injection Hrow as <-. Qed.

Lemma compare_linear_csv_free m k n batch_size init_batch_size :
  Calls csv_free (compare_linear m k n batch_size init_batch_size).
Proof. calls_auto ltac:(exact I). Qed.

Lemma compare_memory_csv_free m k n batch_size :
  Calls csv_free (compare_memory m k n batch_size).
Proof. calls_auto ltac:(exact I). Qed.

Lemma compare_dtype_csv_free m k n batch_size dtype :
  Calls csv_free (compare_dtype m k n batch_size dtype).
Proof. calls_auto ltac:(exact I). Qed.

Lemma dispatch_csv_free mode : Calls csv_free (dispatch mode).
Proof.
  pose proof compare_linear_csv_free. pose proof compare_memory_csv_free.
  pose proof compare_dtype_csv_free.
  unfold dispatch. calls_auto ltac:(first [exact I | auto]).
Qed.

(** What iterating over [results] gives, for the results of mode [v]. *)
Definition yields_sweep (v : string) (results : Results) : Prop :=
  forall W t fs rows,
    result (run W (iterate results) t fs) = Returned rows ->
    map row_shape rows = map Some (sweep v)
    /\ csv_writes (trace (run W (iterate results) t fs)) = [].

Lemma generator_yields_sweep {A} (v : string) (f : A -> Prog Row)
    (g : A -> Z * Z * Z * Z) (xs : list A) :
  (forall x W t fs row, result (run W (f x) t fs) = Returned row ->
     row_shape row = Some (g x)) ->
  (forall x, Calls csv_free (f x)) ->
  sweep v = map g xs ->
  yields_sweep v (Generator (mapM f xs)).
Proof.
  intros Hshape Hfree Hsweep W t fs rows Hrun. cbn [iterate] in *. split.
  - rewrite Hsweep. apply Forall2_shapes.
    eapply (mapM_returned f (fun x row => row_shape row = Some (g x)));
      eassumption.
  - apply csv_free_writes, Calls_run, Calls_mapM, Hfree.
Qed.

(** The comprehensions stay folded while the dispatch is followed. *)
Local Opaque mapM.

Lemma dispatch_returned (W : World) (v : string) t fs res :
  In v choices ->
  result (run W (dispatch (Some v)) t fs) = Returned res ->
  exists results, res = Some results /\ yields_sweep v results.
Proof.
  intros Hin.
  destruct Hin as [<-|[<-|[<-|[<-|[<-|[<-|[<-|[]]]]]]]].
  - (* nvidia-bert *)
    run_cases; intros Hres; try discriminate Hres. injection Hres as <-.
    eexists. split; [reflexivity|].
    apply (generator_yields_sweep _ _ (fun '(m, k, n) => (m, k, n, 1)));
      [intros [[m k] n]; intros; eapply compare_linear_shape; eassumption
      |intros [[m k] n]; apply compare_linear_csv_free|reflexivity].
  - (* nvidia-fixed-k *)
    run_cases; intros Hres; try discriminate Hres. injection Hres as <-.
    eexists. split; [reflexivity|].
    apply (generator_yields_sweep _ _ (fun mn => (mn, 10240, mn, 1)));
      [intros mn; intros; eapply compare_linear_shape; eassumption
      |intros mn; apply compare_linear_csv_free|reflexivity].
  - (* nvidia-fixed-mn *)
    run_cases; intros Hres; try discriminate Hres. injection Hres as <-.
    eexists. split; [reflexivity|].
    apply (generator_yields_sweep _ _ (fun k => (10240, k, 10240, 1)));
      [intros k; intros; eapply compare_linear_shape; eassumption
      |intros k; apply compare_linear_csv_free|reflexivity].
  - (* distilbert-shapes *)
    run_cases; intros Hres; try discriminate Hres. injection Hres as <-.
    eexists. split; [reflexivity|].
    apply (generator_yields_sweep _ _
             (fun '((m, k, n), batch_size) => (m, k, n, batch_size)));
      [intros [[[m k] n] b]; intros; eapply compare_linear_shape; eassumption
      |intros [[[m k] n] b]; apply compare_linear_csv_free|reflexivity].
  - (* alg-id-sweep: the two comprehensions run in the dispatch *)
    change (dispatch (Some "alg-id-sweep")) with
      (call (tqdm (length (product dim_range sweep_batch_sizes))
               (Some (len dim_range * len sweep_batch_sizes))) ;;
       results <- mapM (fun '(n, batch_size) =>
                          compare_linear 768 3072 n batch_size None)
                       (product dim_range sweep_batch_sizes) ;;
       call (tqdm (length (product sweep_batch_sizes sweep_batch_sizes))
               (Some (len sweep_batch_sizes ^ 2))) ;;
       more <- mapM (fun '(batch_size, init_batch_size) =>
                       compare_linear 768 3072 96 batch_size (Some init_batch_size))
                    (product sweep_batch_sizes sweep_batch_sizes) ;;
       Ret (Some (Rows (results ++ more)%list))).
    intros Hrun.
    apply run_bind_returned in Hrun as (? & _ & Hrun & _).
    apply run_bind_returned in Hrun as (results & Hresults & Hrun & _).
    apply run_bind_returned in Hrun as (? & _ & Hrun & _).
    apply run_bind_returned in Hrun as (more & Hmore & Hrun & _).
    cbn in Hrun. injection Hrun as <-.
    eexists. split; [reflexivity|].
    intros W' t' fs' rows Hrows. cbn in Hrows. injection Hrows as <-.
    split; [|reflexivity].
    apply (mapM_returned _ (fun x row =>
             row_shape row = Some ((fun '(n, b) => (768, 3072, n, b)) x)))
      in Hresults; [|intros [n b]; intros; eapply compare_linear_shape; eassumption].
    apply (mapM_returned _ (fun x row =>
             row_shape row = Some ((fun '(b, _) => (768, 3072, 96, b)) x)))
      in Hmore; [|intros [b i]; intros; eapply compare_linear_shape; eassumption].
    apply Forall2_shapes in Hresults, Hmore.
    rewrite map_app, Hresults, Hmore, <- map_app. reflexivity.
  - (* int8-fp16-linear *)
    run_cases; intros Hres; try discriminate Hres. injection Hres as <-.
    eexists. split; [reflexivity|].
    apply (generator_yields_sweep _ _
             (fun '(batch_size, _) => (768, 3072, 768, batch_size)));
      [intros [b d]; intros; eapply compare_dtype_shape; eassumption
      |intros [b d]; apply compare_dtype_csv_free|reflexivity].
  - (* memory *)
    change (dispatch (Some "memory")) with
      (row <- compare_memory 4096 4096 4096 1 ;; Ret (Some (Rows [row]))).
    intros Hrun.
    apply run_bind_returned in Hrun as (row & Hrow & Hrun & _).
    cbn in Hrun. injection Hrun as <-.
    eexists. split; [reflexivity|].
    intros W' t' fs' rows Hrows. cbn in Hrows. injection Hrows as <-.
    split; [|reflexivity].
    apply compare_memory_shape in Hrow. cbn [map]. now rewrite Hrow.
Qed.

Local Transparent mapM.

Lemma csv_writes_app (tr tr' : list Event) :
  csv_writes (tr ++ tr') = (csv_writes tr ++ csv_writes tr')%list.
Proof. apply flat_map_app. Qed.

(** The end of the script, once [results] has been iterated over. *)
Lemma save_results_returned (W : World) (mode : option string) rows t fs :
  let r := run W
    (df <- call (DataFrame_from_records rows) ;;
     call (DataFrame_to_csv df (str_mode mode ++ ".csv")) ;;
     call (print [Lit ("Finished benchmark: " ++ str_mode mode
                       ++ " saved results to " ++ (str_mode mode ++ ".csv"))]) ;;
     grouped <- call (DataFrame_groupby_first df ["m"; "k"; "n"; "eval_batch_size"]) ;;
     call (print [Str grouped])) t fs in
  result r = Returned tt ->
  exists df,
    In (Called (DataFrame_from_records rows) (Returned df)) (trace r)
    /\ csv_writes (trace r) = [(df, str_mode mode ++ ".csv")]
    /\ (str_mode mode ++ ".csv") ∈ files r.
Proof.
  intros r. subst r. run_cases; intros Hres; try discriminate Hres.
  eexists. split; [left; reflexivity|]. split; [reflexivity|]. set_solver.
Qed.

(** C2.  A value of [--mode] outside the seven choices ends the run at
    argparse, before any call.  A run with [--mode v] that completes had
    [v] among the choices, handed to [from_records] the rows of the sweep of
    [v], shape by shape in order, and wrote one CSV file: that data frame,
    under the name [v] followed by [".csv"], which the working directory
    then holds. *)
Theorem main_writes_mode_csv (W : World) (v : string) (t : nat) (fs : Files) :
  let r := run W (main (Some v)) t fs in
  (~ In v choices ->
   result r = Raised (SystemExit 2) /\ trace r = [] /\ files r = fs)
  /\ (result r = Returned tt ->
      In v choices
      /\ exists rows df,
           map row_shape rows = map Some (sweep v)
           /\ In (Called (DataFrame_from_records rows) (Returned df)) (trace r)
           /\ csv_writes (trace r) = [(df, v ++ ".csv")]
           /\ (v ++ ".csv") ∈ files r).
Proof.
  intros r. subst r. unfold main, parse_args.
  destruct (existsb (String.eqb v) choices) eqn:Hv.
  - apply choices_spec in Hv. split; [intros Hnot; contradiction|].
    cbn [bind]. intros Hrun. split; [exact Hv|].
    apply run_bind_returned in Hrun as (? & _ & Hrun & Htr1 & Hfs1).
    apply run_bind_returned in Hrun as (res & Hres & Hrun & Htr2 & Hfs2).
    destruct (dispatch_returned _ _ _ _ _ Hv Hres) as (results & -> & Hsweep).
    cbv zeta in Hrun, Htr2, Hfs2. cbn [read_results bind] in Hrun, Htr2, Hfs2.
    apply run_bind_returned in Hrun as (rows & Hrows & Hrun & Htr3 & Hfs3).
    destruct (Hsweep _ _ _ _ Hrows) as (Hshapes & Hnocsv).
    destruct (save_results_returned _ (Some v) _ _ _ Hrun) as (df & Hin & Hcsv & Hfile).
    exists rows, df. split; [exact Hshapes|].
    rewrite Htr1, Htr2, Htr3, Hfs1, Hfs2, Hfs3.
    split; [|split; [|exact Hfile]].
    + apply in_or_app. right. apply in_or_app. right. apply in_or_app. right.
      exact Hin.
    + rewrite !csv_writes_app, Hnocsv, Hcsv.
      rewrite (csv_free_writes _ (Calls_run csv_free _ W (dispatch_csv_free _) _ _)).
      match goal with |- (?l ++ _)%list = _ => assert (l = []) as -> end;
        [|reflexivity].
      apply csv_free_writes, Calls_run. split; [exact I|intros; exact I].
  - split; [|discriminate]. intros _. now cbn.
Qed.

(** In the world where every call returns, the BERT sweep completes and
    leaves ["nvidia-bert.csv"] behind. *)
Lemma main_writes_mode_csv_witness :
  let r := run healthy (main (Some "nvidia-bert")) 0 ∅ in
  result r = Returned tt /\ "nvidia-bert.csv" ∈ files r.
Proof.
  intros r.
  assert (result r = Returned tt) as Hrun by (lazy; reflexivity).
  split; [exact Hrun|].
  destruct (proj2 (main_writes_mode_csv healthy "nvidia-bert" 0 ∅) Hrun)
    as (_ & rows & df & _ & _ & _ & Hfile).
  exact Hfile.
Defined.

(** * Further properties of the script *)

(** ** Standard output during a comparison *)









(** ** The dtype comparison *)

(** The calls of a latency measurement of the dense model alone. *)
Definition dense_only (o : Op) : Prop :=
  match o with
  | WeightNormSparsifier _ | Sparsifier_prepare _ _ _ | Sparsifier_step _
  | Sparsifier_convert _ _ _ _ | Sparsifier_squash_mask _ | get_alg_id _
  | torch_allclose _ _ _ _ | Module_call _ _
  | open_ _ _ | os_dup _ | os_dup2 _ _
  | torch_load _ | torch_save _ _ | Module_half _ => False
  | _ => True
  end.

Lemma compare_dtype_dense_only m k n batch_size dtype :
  Calls dense_only (compare_dtype m k n batch_size dtype).
Proof. calls_auto ltac:(exact I). Qed.

Lemma dispatch_int8_fp16 :
  dispatch (Some "int8-fp16-linear") =
    (call (tqdm (length (product dtype_batch_sizes dtypes))
                (Some (len dtypes * len dtype_batch_sizes))) ;;
     Ret (Some (Generator
       (mapM (fun '(batch_size, dtype) => compare_dtype 768 3072 768 batch_size dtype)
             (product dtype_batch_sizes dtypes))))).
Proof. reflexivity. Qed.

Lemma int8_fp16_dense_only : Calls dense_only (main (Some "int8-fp16-linear")).
Proof.
  pose proof compare_dtype_dense_only.
  unfold main.
  change (parse_args (Some "int8-fp16-linear"))
    with (Ret (A := option string) (Some "int8-fp16-linear")).
  cbn [bind]. rewrite dispatch_int8_fp16.
  calls_auto ltac:(first [exact I | auto]).
Qed.

(** X2.  The [int8-fp16-linear] mode measures the dense model only.  In no
    run of the mode, and in no run of [compare_dtype], is a sparsifier
    built, a model converted, a forward pass or a closeness check made by
    the script, standard output redirected or a model file read or
    written.  A [compare_dtype] that returns made thirteen calls: the
    model, cast to the dtype, put in eval mode and moved to the GPU; an
    integer tensor below 10 of shape [(batch_size, n, k)] in that dtype on
    the device of the weight; one timer over both; its median, which the
    row holds in milliseconds. *)
Theorem dtype_mode_times_dense_only (W : World) (t : nat) (fs : Files) :
  Forall (fun ev => dense_only (op_of ev))
         (trace (run W (main (Some "int8-fp16-linear")) t fs))
  /\ forall m k n batch_size dtype,
     let r := run W (compare_dtype m k n batch_size dtype) t fs in
     Forall (fun ev => dense_only (op_of ev)) (trace r)
     /\ forall row, result r = Returned row ->
        exists (self linear typed evaled model : Handle)
               (dense_linear weight device x timer latency : Handle)
               (median : float),
          trace r =
            [Called Module_init (Returned self);
             Called (nn_Linear k m) (Returned linear);
             Called (Module_setattr self "linear" linear) (Returned tt);
             Called (Module_type self dtype) (Returned typed);
             Called (Module_eval typed) (Returned evaled);
             Called (Module_cuda evaled) (Returned model);
             Called (getattr model "linear") (Returned dense_linear);
             Called (getattr dense_linear "weight") (Returned weight);
             Called (getattr weight "device") (Returned device);
             Called (torch_randint 10 [batch_size; n; k] device dtype) (Returned x);
             Called (Timer "model(input_tensor)"
                       [("input_tensor", x); ("model", model)])
                    (Returned timer);
             Called (blocked_autorange timer) (Returned latency);
             Called (Measurement_median latency) (Returned median)]
          /\ row =
            [("m", VInt m);
             ("k", VInt k);
             ("n", VInt n);
             ("eval_batch_size", VInt batch_size);
             ("dtype", VStr (str_dtype dtype));
             ("latency (ms)", VFloat (median * 1000)%float)].
Proof.
  split; [apply Calls_run, int8_fp16_dense_only|].
  intros m k n batch_size dtype r. split.
  - apply Calls_run, compare_dtype_dense_only.
  - subst r. run_cases; intros row Hrow; try discriminate Hrow.
    injection Hrow as <-. destruct_units. repeat eexists.
Qed.

(** ** The files a run leaves *)

(** The call creates no file outside [S]. *)
Definition creates_within (S : Files) (o : Op) : Prop :=
  forall path, creates_file o = Some path -> path ∈ S.

Lemma files_run_grow {A} (W : World) (p : Prog A) :
  forall t fs, fs ⊆ files (run W p t fs).
Proof.
  induction p as [a|e|o k IH]; intros t fs; [reflexivity|reflexivity|].
  rewrite run_Do. destruct (perform W o t fs) as [v|e]; cbn [files]; [|reflexivity].
  etransitivity; [|apply IH].
  unfold after_call. destruct (creates_file o); [apply union_subseteq_r|reflexivity].
Qed.

Lemma Calls_files {A} (S : Files) (p : Prog A) (W : World) :
  Calls (creates_within S) p ->
  forall t fs, files (run W p t fs) ⊆ fs ∪ S.
Proof.
  induction p as [a|e|o k IH]; intros Hp t fs;
    [apply union_subseteq_l|apply union_subseteq_l|].
  destruct Hp as [Ho Hk].
  rewrite run_Do. destruct (perform W o t fs) as [v|e]; cbn [files];
    [|apply union_subseteq_l].
  etransitivity; [apply IH, Hk|].
  unfold after_call. unfold creates_within in Ho.
  destruct (creates_file o) as [path|]; [|reflexivity].
  specialize (Ho path eq_refl).
  apply union_least; [|apply union_subseteq_r].
  apply union_least; [|apply union_subseteq_l].
  apply singleton_subseteq_l, elem_of_union_r, Ho.
Qed.

(** Membership in, and inclusion between, sets written out. *)
Ltac in_set :=
  first [ apply elem_of_singleton_2; reflexivity
        | apply elem_of_union_r; apply elem_of_singleton_2; reflexivity
        | apply elem_of_union_l; in_set ].

Ltac sub_set :=
  first [ apply empty_subseteq
        | apply singleton_subseteq_l; in_set
        | apply union_least; [sub_set|sub_set] ].

Ltac creates_within_tac :=
  let path := fresh "path" in
  let H := fresh "H" in
  intros path H; cbv beta iota delta [creates_file] in H;
  first [ discriminate H
        | injection H as <-; in_set
        | cbn in H; injection H as <-; in_set ].

Lemma compare_linear_creates m k n batch_size init_batch_size :
  Calls (creates_within {[ "/dev/null" ]})
        (compare_linear m k n batch_size init_batch_size).
Proof. calls_auto creates_within_tac. Qed.

Lemma compare_dtype_creates m k n batch_size dtype :
  Calls (creates_within ∅) (compare_dtype m k n batch_size dtype).
Proof. calls_auto creates_within_tac. Qed.

Lemma compare_memory_creates m k n batch_size :
  Calls (creates_within {[ "sparse_model.pt"; "dense_model.pt" ]})
        (compare_memory m k n batch_size).
Proof. calls_auto creates_within_tac. Qed.

Lemma Calls_weaken {A} (P Q : Op -> Prop) (p : Prog A) :
  (forall o, P o -> Q o) -> Calls P p -> Calls Q p.
Proof.
  intros HPQ. induction p as [a|e|o k IH]; cbn; [auto|auto|].
  intros [Ho Hk]. split; auto.
Qed.

Lemma creates_within_mono (S S' : Files) (o : Op) :
  S ⊆ S' -> creates_within S o -> creates_within S' o.
Proof. intros HS Ho path Hpath. apply HS, Ho, Hpath. Qed.

Lemma main_creates (given : option string) :
  Calls (creates_within {[ "/dev/null"; "sparse_model.pt"; "dense_model.pt";
                           str_mode given ++ ".csv" ]})
        (main given).
Proof.
  set (S := ({[ "/dev/null"; "sparse_model.pt"; "dense_model.pt";
                str_mode given ++ ".csv" ]} : Files)).
  assert (forall m k n b i, Calls (creates_within S) (compare_linear m k n b i)) as Hl.
  { intros. eapply Calls_weaken; [|apply compare_linear_creates].
    intros o. apply creates_within_mono. subst S. sub_set. }
  assert (forall m k n b d, Calls (creates_within S) (compare_dtype m k n b d)) as Hd.
  { intros. eapply Calls_weaken; [|apply compare_dtype_creates].
    intros o. apply creates_within_mono. subst S. sub_set. }
  assert (forall m k n b, Calls (creates_within S) (compare_memory m k n b)) as Hm.
  { intros. eapply Calls_weaken; [|apply compare_memory_creates].
    intros o. apply creates_within_mono. subst S. sub_set. }
  unfold main, parse_args. destruct given as [v|].
  - destruct (existsb (String.eqb v) choices); [|exact I].
    calls_auto ltac:(first [ subst S; creates_within_tac
                           | exact (Hl _ _ _ _ _) | exact (Hd _ _ _ _ _)
                           | exact (Hm _ _ _ _) ]).
  - calls_auto ltac:(first [ subst S; creates_within_tac ]).
Qed.

Lemma main_creates_no_model (given : option string) :
  given <> Some "memory" ->
  Calls (creates_within {[ "/dev/null"; str_mode given ++ ".csv" ]}) (main given).
Proof.
  intros Hgiven.
  set (S := ({[ "/dev/null"; str_mode given ++ ".csv" ]} : Files)).
  assert (forall m k n b i, Calls (creates_within S) (compare_linear m k n b i)) as Hl.
  { intros. eapply Calls_weaken; [|apply compare_linear_creates].
    intros o. apply creates_within_mono. subst S. sub_set. }
  assert (forall m k n b d, Calls (creates_within S) (compare_dtype m k n b d)) as Hd.
  { intros. eapply Calls_weaken; [|apply compare_dtype_creates].
    intros o. apply creates_within_mono. subst S. sub_set. }
  unfold main, parse_args. destruct given as [v|].
  - destruct (existsb (String.eqb v) choices); [|exact I].
    assert (String.eqb v "memory" = false) as Hv.
    { apply String.eqb_neq. congruence. }
    cbn [bind]. unfold dispatch. cbn [mode_is]. rewrite Hv.
    calls_auto ltac:(first [ subst S; creates_within_tac
                           | exact (Hl _ _ _ _ _) | exact (Hd _ _ _ _ _) ]).
  - cbn [bind]. unfold dispatch. cbn [mode_is].
    calls_auto ltac:(first [ subst S; creates_within_tac ]).
Qed.

(** X3.  What a run can leave in the working directory.  No run removes a
    file.  A [compare_linear] creates nothing but [/dev/null] (opened for
    writing), a [compare_dtype] nothing at all.  The whole script, in any
    world and for any command line, creates at most [/dev/null], the two
    state dict files and the CSV of the mode; outside the memory mode, at
    most [/dev/null] and the CSV. *)
Theorem files_a_run_can_leave (W : World) (given : option string)
    (t : nat) (fs : Files) :
  let r := run W (main given) t fs in
  let csv := str_mode given ++ ".csv" in
  fs ⊆ files r
  /\ files r ⊆ fs ∪ {[ "/dev/null"; "sparse_model.pt"; "dense_model.pt"; csv ]}
  /\ (given <> Some "memory" -> files r ⊆ fs ∪ {[ "/dev/null"; csv ]})
  /\ (forall m k n batch_size init_batch_size,
        let r := run W (compare_linear m k n batch_size init_batch_size) t fs in
        fs ⊆ files r /\ files r ⊆ fs ∪ {[ "/dev/null" ]})
  /\ (forall m k n batch_size dtype,
        files (run W (compare_dtype m k n batch_size dtype) t fs) = fs).
Proof.
  intros r csv. split; [apply files_run_grow|].
  split; [apply Calls_files, main_creates|].
  split; [intros Hgiven; now apply Calls_files, main_creates_no_model|].
  split.
  - intros m k n b i r'. split; [apply files_run_grow|].
    apply Calls_files, compare_linear_creates.
  - intros m k n b d.
    pose proof (files_run_grow W (compare_dtype m k n b d) t fs) as Hgrow.
    pose proof (Calls_files ∅ _ W (compare_dtype_creates m k n b d) t fs) as Hin.
    revert Hgrow Hin.
    generalize (files (run W (compare_dtype m k n b d) t fs)).
    intros X Hgrow Hin. rewrite (right_id_L ∅ (∪)) in Hin.
    apply set_eq. intros x. split; [apply Hin|apply Hgrow].
Qed.

(** ** The memory mode with its files in place *)







(** ** The sweeps *)

(** A progress bar told its length is told the number of items. *)
Definition total_matches (o : Op) : Prop :=
  match o with
  | tqdm items (Some total) => total = Z.of_nat items
  | _ => True
  end.

Lemma product_length {A B} (xs : list A) (ys : list B) :
  length (product xs ys) = (length xs * length ys)%nat.
Proof.
  unfold product. induction xs as [|x xs IH]; [reflexivity|].
  cbn [flat_map]. rewrite length_app, length_map, IH. reflexivity.
Qed.

Lemma len_product {A B} (xs : list A) (ys : list B) :
  len xs * len ys = len (product xs ys).
Proof. unfold len. rewrite product_length. lia. Qed.

Ltac total_matches_tac :=
  first [ exact I
        | cbv beta iota delta [total_matches]; fold (@len);
          first [ apply len_product
                | rewrite Z.mul_comm; apply len_product
                | rewrite Z.pow_2_r; apply len_product ] ].

Lemma compare_linear_totals m k n batch_size init_batch_size :
  Calls total_matches (compare_linear m k n batch_size init_batch_size).
Proof. calls_auto ltac:(exact I). Qed.

Lemma compare_memory_totals m k n batch_size :
  Calls total_matches (compare_memory m k n batch_size).
Proof. calls_auto ltac:(exact I). Qed.

Lemma compare_dtype_totals m k n batch_size dtype :
  Calls total_matches (compare_dtype m k n batch_size dtype).
Proof. calls_auto ltac:(exact I). Qed.

Lemma main_totals given : Calls total_matches (main given).
Proof.
  pose proof compare_linear_totals as Hl.
  pose proof compare_memory_totals as Hm.
  pose proof compare_dtype_totals as Hd.
  unfold main.
  calls_auto ltac:(first [ total_matches_tac | exact (Hl _ _ _ _ _)
                         | exact (Hm _ _ _ _) | exact (Hd _ _ _ _ _) ]).
Qed.

(** X5.  Wherever the script gives [tqdm] a [total], in the
    distilbert-shapes, alg-id-sweep and int8-fp16-linear modes, the total
    is the number of items the bar iterates over: the products of lengths
    written in the script are the lengths of the products.  This holds of
    every [tqdm] call of every run. *)
Theorem tqdm_totals_are_exact (W : World) (given : option string)
    (t : nat) (fs : Files) :
  Forall (fun ev => forall items total,
            op_of ev = tqdm items (Some total) -> total = Z.of_nat items)
         (trace (run W (main given) t fs)).
Proof.
  eapply Forall_impl; [apply Calls_run, main_totals|].
  intros [o r] H items total Ho. cbn [op_of] in *. subst o. exact H.
Qed.

(** X6.  [range], as the script uses it: for a positive step,
    [list(range(start, stop, step))] holds the numbers from [start] up to,
    not including, [stop] that lie a multiple of [step] above [start], and
    no others. *)
Theorem range_spec (start stop step x : Z) :
  0 < step ->
  In x (range start stop step)
  <-> start <= x < stop /\ (x - start) mod step = 0.
Proof.
  intros Hstep. unfold range. rewrite in_map_iff. split.
  - intros (i & <- & Hi). apply in_seq in Hi. destruct Hi as [_ Hi].
    cbn in Hi.
    assert (Z.of_nat i < (stop - start + step - 1) / step) as Hlt by lia.
    assert (step * ((stop - start + step - 1) / step) <= stop - start + step - 1)
      as Hdiv by (apply Z.mul_div_le; lia).
    split; [nia|].
    replace (start + step * Z.of_nat i - start) with (Z.of_nat i * step) by lia.
    apply Z_mod_mult.
  - intros ((Hlo & Hhi) & Hmod).
    assert (x - start = step * ((x - start) / step)) as Hx
      by (apply Z_div_exact_full_2; lia).
    assert (0 <= (x - start) / step) as Hd by (apply Z.div_pos; lia).
    exists (Z.to_nat ((x - start) / step)). split; [lia|].
    apply in_seq. split; [lia|]. cbn.
    assert ((x - start) / step + 1 <= (stop - start + step - 1) / step) as Hle.
    { apply Z.div_le_lower_bound; [lia|]. nia. }
    lia.
Qed.

(** The last dimension of the alg-id sweep is 3072. *)
Lemma range_spec_witness : In 3072 dim_range.
Proof.
  apply (proj2 (range_spec 96 (3072 + 1) 96 3072 ltac:(lia))).
  split; [lia|reflexivity].
Defined.

(** ** No partial results *)

Lemma csv_free_no_event (tr : list Event) :
  Forall (fun ev => csv_free (op_of ev)) tr -> existsb writes_csv tr = false.
Proof.
  induction 1 as [|[o r] tr Hev _ IH]; [reflexivity|].
  cbn [existsb]. rewrite IH. destruct o; try reflexivity. destruct Hev.
Qed.

Local Opaque mapM.

(** Whatever the dispatch binds [results] to, iterating over it writes no
    CSV. *)
Lemma dispatch_iterate_csv_free (W : World) (v : string) t fs results :
  In v choices ->
  result (run W (dispatch (Some v)) t fs) = Returned (Some results) ->
  Calls csv_free (iterate results).
Proof.
  intros Hin.
  destruct Hin as [<-|[<-|[<-|[<-|[<-|[<-|[<-|[]]]]]]]].
  - run_cases; intros Hres; try discriminate Hres. injection Hres as <-.
    apply Calls_mapM. intros [[m k] n]. apply compare_linear_csv_free.
  - run_cases; intros Hres; try discriminate Hres. injection Hres as <-.
    apply Calls_mapM. intros mn. apply compare_linear_csv_free.
  - run_cases; intros Hres; try discriminate Hres. injection Hres as <-.
    apply Calls_mapM. intros k. apply compare_linear_csv_free.
  - run_cases; intros Hres; try discriminate Hres. injection Hres as <-.
    apply Calls_mapM. intros [[[m k] n] b]. apply compare_linear_csv_free.
  - change (dispatch (Some "alg-id-sweep")) with
      (call (tqdm (length (product dim_range sweep_batch_sizes))
               (Some (len dim_range * len sweep_batch_sizes))) ;;
       results <- mapM (fun '(n, batch_size) =>
                          compare_linear 768 3072 n batch_size None)
                       (product dim_range sweep_batch_sizes) ;;
       call (tqdm (length (product sweep_batch_sizes sweep_batch_sizes))
               (Some (len sweep_batch_sizes ^ 2))) ;;
       more <- mapM (fun '(batch_size, init_batch_size) =>
                       compare_linear 768 3072 96 batch_size (Some init_batch_size))
                    (product sweep_batch_sizes sweep_batch_sizes) ;;
       Ret (Some (Rows (results ++ more)%list))).
    intros Hrun.
    apply run_bind_returned in Hrun as (? & _ & Hrun & _).
    apply run_bind_returned in Hrun as (rows1 & _ & Hrun & _).
    apply run_bind_returned in Hrun as (? & _ & Hrun & _).
    apply run_bind_returned in Hrun as (rows2 & _ & Hrun & _).
    cbn in Hrun. injection Hrun as <-. exact I.
  - run_cases; intros Hres; try discriminate Hres. injection Hres as <-.
    apply Calls_mapM. intros [b d]. apply compare_dtype_csv_free.
  - change (dispatch (Some "memory")) with
      (row <- compare_memory 4096 4096 4096 1 ;; Ret (Some (Rows [row]))).
    intros Hrun.
    apply run_bind_returned in Hrun as (row & _ & Hrun & _).
    cbn in Hrun. injection Hrun as <-. exact I.
Qed.

Local Transparent mapM.

(** The end of the script reaches [to_csv] only through [from_records]. *)
Lemma save_results_csv (W : World) (mode : option string) rows t fs :
  let r := run W
    (df <- call (DataFrame_from_records rows) ;;
     call (DataFrame_to_csv df (str_mode mode ++ ".csv")) ;;
     call (print [Lit ("Finished benchmark: " ++ str_mode mode
                       ++ " saved results to " ++ (str_mode mode ++ ".csv"))]) ;;
     grouped <- call (DataFrame_groupby_first df ["m"; "k"; "n"; "eval_batch_size"]) ;;
     call (print [Str grouped])) t fs in
  existsb writes_csv (trace r) = true ->
  exists df, In (Called (DataFrame_from_records rows) (Returned df)) (trace r).
Proof.
  intros r. subst r. run_cases; intros Hcsv; try discriminate Hcsv.
  all: eexists; left; reflexivity.
Qed.

(** X7.  The CSV is written only after the whole sweep.  In any run with
    [--mode v], in any world, if [to_csv] is called at all then every
    comparison of the sweep of [v] has returned and their rows, shape by
    shape in order, are what [from_records] was given.  A failure in any
    comparison therefore leaves no CSV, whatever the earlier comparisons
    measured. *)
Theorem csv_only_after_full_sweep (W : World) (v : string)
    (t : nat) (fs : Files) :
  let r := run W (main (Some v)) t fs in
  existsb writes_csv (trace r) = true ->
  exists rows df,
    map row_shape rows = map Some (sweep v)
    /\ In (Called (DataFrame_from_records rows) (Returned df)) (trace r).
Proof.
  intros r. subst r. unfold main, parse_args.
  destruct (existsb (String.eqb v) choices) eqn:Hv; [|discriminate].
  apply choices_spec in Hv. cbn [bind].
  (* the first print *)
  rewrite run_bind. cbv zeta.
  pose proof (Calls_run csv_free
                (call (print [Lit ("Started benchmark: " ++ str_mode (Some v))])) W
                (conj I (fun _ => I)) t fs) as Hfree1.
  apply csv_free_no_event in Hfree1.
  destruct (result (run W (call (print _)) t fs)) as [[]|e]; cbn [trace];
    [|intros Hcsv; congruence].
  rewrite existsb_app, Hfree1. cbn [orb].
  (* the dispatch *)
  rewrite run_bind. cbv zeta.
  match goal with
  | |- context [run W (dispatch (Some v)) ?t' ?fs'] =>
      pose proof (Calls_run csv_free _ W (dispatch_csv_free (Some v)) t' fs')
        as Hfree2;
      pose proof (dispatch_returned W v t' fs') as Hsweep;
      pose proof (dispatch_iterate_csv_free W v t' fs') as Hiter;
      destruct (result (run W (dispatch (Some v)) t' fs')) as [res|e];
      cbn [trace]
  end.
  2: { apply csv_free_no_event in Hfree2. intros Hcsv. congruence. }
  apply csv_free_no_event in Hfree2. rewrite existsb_app, Hfree2. cbn [orb].
  destruct (Hsweep res Hv eq_refl) as (results & -> & Hshapes).
  specialize (Hiter results Hv eq_refl).
  cbn [read_results bind].
  (* the iteration *)
  rewrite run_bind. cbv zeta.
  match goal with
  | |- context [run W (iterate results) ?t' ?fs'] =>
      pose proof (Calls_run csv_free _ W Hiter t' fs') as Hfree3;
      pose proof (Hshapes W t' fs') as Hrows;
      destruct (result (run W (iterate results) t' fs')) as [rows|e];
      cbn [trace]
  end.
  2: { apply csv_free_no_event in Hfree3. intros Hcsv. congruence. }
  apply csv_free_no_event in Hfree3. rewrite existsb_app, Hfree3. cbn [orb].
  destruct (Hrows rows eq_refl) as [Hmap _].
  intros Hcsv. apply (save_results_csv W (Some v)) in Hcsv as (df & Hdf).
  exists rows, df. split; [exact Hmap|].
  apply in_or_app. right. apply in_or_app. right. apply in_or_app. right.
  exact Hdf.
Qed.

(** In the world where every call returns, the BERT sweep reaches
    [to_csv]. *)
Lemma csv_only_after_full_sweep_witness :
  exists rows df,
    map row_shape rows = map Some (sweep "nvidia-bert")
    /\ In (Called (DataFrame_from_records rows) (Returned df))
          (trace (run healthy (main (Some "nvidia-bert")) 0 ∅)).
Proof.
  apply (csv_only_after_full_sweep healthy "nvidia-bert" 0 ∅).
  vm_compute. reflexivity.
Defined.

(** * The framework under test

    The test file [test_control_flow.py] calls the tracer ([make_fx],
    [cond], [while_loop], [functionalize]).  Their code is not among the
    sources; only the tests are.  The models below follow what the
    specification says of them and what the tests make them do. *)

(** [tracing_mode] of [make_fx]. *)
Inductive TracingMode := real | fake | symbolic.

Module CondTracing.

(** ** Tracing [cond]: [test_assert_on_mismatch_*] *)


(** What the tracer knows of a tensor. *)
Record TensorMeta := {
  size : list Z;
  is_float : bool
}.

(** A value a branch returns: a tensor or a tuple of values. *)
#[local] Set Warnings "-register-all".
Inductive Out :=
| Tensor (meta : TensorMeta)
| Tuple (items : list Out).

(** The tensors of a value, left to right. *)
Fixpoint flatten (o : Out) : list TensorMeta :=
  match o with
  | Tensor meta => [meta]
  | Tuple items => flat_map flatten items
  end.

Fixpoint forallb2 {A} (eqb : A -> A -> bool) (xs ys : list A) : bool :=
  match xs, ys with
  | [], [] => true
  | x :: xs', y :: ys' => eqb x y && forallb2 eqb xs' ys'
  | _, _ => false
  end.

Definition meta_eqb (a b : TensorMeta) : bool :=
  forallb2 Z.eqb (size a) (size b) && Bool.eqb (is_float a) (is_float b).

(** A traced [cond]: the two branch graphs' outputs. *)
Record CondGraph := {
  true_outs : list TensorMeta;
  false_outs : list TensorMeta
}.

(** Modelled from the spec: the tracer's handling of [cond], which is not
    in src/.  "Errors are framework-surfaced assertion failures (e.g.,
    shape/type mismatches during tracing) propagated directly to the
    caller": both branches are traced on the operands, and the tracer
    asserts that they return as many tensors and that the tensors agree
    pairwise in size and type.  The predicate's value plays no part, and
    neither does the tracing mode. *)
Definition trace_cond (mode : TracingMode) (pred : bool)
    (true_fn false_fn : list TensorMeta -> Out) (operands : list TensorMeta)
  : Res CondGraph :=
  let t := flatten (true_fn operands) in
  let f := flatten (false_fn operands) in
  if negb (Nat.eqb (length t) (length f)) then Raised AssertionError
  else if negb (forallb2 meta_eqb t f) then Raised AssertionError
  else Returned {| true_outs := t; false_outs := f |}.

(** The functions of the tests.  [x.sin()] keeps the size of [x]. *)
Definition sin (x : TensorMeta) : TensorMeta := x.

Definition zeros (shape : list Z) : TensorMeta :=
  {| size := shape; is_float := true |}.

(** [torch.randn(4)] *)
Definition randn4 : TensorMeta := {| size := [4]; is_float := true |}.

Definition with_one (f : TensorMeta -> Out) (operands : list TensorMeta) : Out :=
  match operands with
  | [x] => f x
  | _ => Tuple []
  end.

(** [true_fn(x) = x.sin()] *)
Definition true_fn : list TensorMeta -> Out :=
  with_one (fun x => Tensor (sin x)).

(** [false_fn(x) = (x, x)] of [test_assert_on_mismatch_type_size] *)
Definition false_fn_pair : list TensorMeta -> Out :=
  with_one (fun x => Tuple [Tensor x; Tensor x]).

(** [false_fn(x) = torch.zeros([10, 10])] of
    [test_assert_on_mismatch_tensor_size] *)
Definition false_fn_zeros : list TensorMeta -> Out :=
  with_one (fun _ => Tensor (zeros [10; 10])).

(** [f(x, y) = cond(y, true_fn, false_fn, [x])], traced by
    [make_fx(f, tracing_mode=mode)(x, y)]. *)
Definition make_fx_f (mode : TracingMode) (false_fn : list TensorMeta -> Out)
    (x : TensorMeta) (y : bool) : Res CondGraph :=
  trace_cond mode y true_fn false_fn [x].

Lemma meta_eqb_eq (a b : TensorMeta) : meta_eqb a b = true <-> a = b.
Proof.
  destruct a as [sa fa], b as [sb fb]. unfold meta_eqb. cbn.
  rewrite andb_true_iff, Bool.eqb_true_iff. split.
  - intros [Hs ->]. f_equal. revert sb Hs.
    induction sa as [|a sa IH]; intros [|b sb] Hs; cbn in Hs; try discriminate;
      [reflexivity|].
    apply andb_prop in Hs as [Hab Hs]. apply Z.eqb_eq in Hab as ->.
    f_equal. now apply IH.
  - intros [= -> ->]. split; [|reflexivity].
    induction sb as [|b sb IH]; cbn; [reflexivity|].
    now rewrite Z.eqb_refl.
Qed.

Lemma forallb2_meta_eq (t f : list TensorMeta) :
  forallb2 meta_eqb t f = true -> t = f.
Proof.
  revert f. induction t as [|a t IH]; intros [|b f] H; cbn in H;
    try discriminate; [reflexivity|].
  apply andb_prop in H as [Hab H]. apply meta_eqb_eq in Hab as ->.
  f_equal. now apply IH.
Qed.

(** C6.  Tracing a [cond] whose branches return different tensors, in
    number or in size, raises [AssertionError] in every tracing mode and
    for either value of the predicate; so do the two functions of the
    tests, for an input of any size.  A [cond] is traced only when the
    branches agree. *)
Theorem cond_mismatch_raises (mode : TracingMode) (pred : bool) :
  (forall true_fn false_fn operands,
     flatten (true_fn operands) <> flatten (false_fn operands) ->
     trace_cond mode pred true_fn false_fn operands = Raised AssertionError)
  /\ (forall true_fn false_fn operands g,
     trace_cond mode pred true_fn false_fn operands = Returned g ->
     flatten (true_fn operands) = flatten (false_fn operands))
  /\ (forall x, make_fx_f mode false_fn_pair x pred = Raised AssertionError)
  /\ (forall x, size x <> [10; 10] ->
        make_fx_f mode false_fn_zeros x pred = Raised AssertionError)
  /\ make_fx_f mode false_fn_zeros randn4 pred = Raised AssertionError.
Proof.
  assert (forall tf ff ops g,
            trace_cond mode pred tf ff ops = Returned g ->
            flatten (tf ops) = flatten (ff ops)) as Hagree.
  { intros tf ff ops g. unfold trace_cond. cbv zeta.
    destruct (Nat.eqb _ _); cbn [negb]; [|discriminate].
    destruct (forallb2 meta_eqb _ _) eqn:H; cbn [negb]; [|discriminate].
    intros _. now apply forallb2_meta_eq. }
  assert (forall tf ff ops,
            flatten (tf ops) <> flatten (ff ops) ->
            trace_cond mode pred tf ff ops = Raised AssertionError) as Hraise.
  { intros tf ff ops Hne.
    destruct (trace_cond mode pred tf ff ops) as [g|e] eqn:H.
    - exfalso. apply Hne. eapply Hagree. eassumption.
    - unfold trace_cond in H. cbv zeta in H.
      destruct (negb _); [congruence|]. destruct (negb _); congruence. }
  split; [exact Hraise|]. split; [exact Hagree|]. split; [|split].
  - intros x. apply Hraise. discriminate.
  - intros x Hx. apply Hraise. cbn. intros [= H]. apply Hx.
    unfold sin in H. now rewrite H.
  - apply Hraise. discriminate.
Qed.

End CondTracing.

Module Functionalization.

Local Open Scope list_scope.

(** ** Functionalizing a [while_loop]: [test_trace_functionalize_while_loop] *)

Section Elements.

(** The elements of a floating-point tensor and the two operations on them
    the test needs: adding a Python integer and comparing with one.  They
    are left open: the statements below hold whatever the arithmetic. *)
Variable F : Type.
Variable fadd : F -> Z -> F.
Variable fgt : F -> Z -> bool.

Inductive Data :=
| Ints (xs : list Z)
| Floats (xs : list F)
| Bools (xs : list bool).

(** A tensor as a value. *)
Record Tensor := {
  shape : list Z;
  data : Data
}.

Definition numel (shape : list Z) : Z := fold_right Z.mul 1 shape.

(** 64-bit integers wrap around. *)
Definition wrap64 (z : Z) : Z := (z + 2 ^ 63) mod 2 ^ 64 - 2 ^ 63.

Definition bool_int (b : bool) : Z := if b then 1 else 0.

(** [t + c] for a Python integer [c]; booleans are promoted. *)
Definition add_scalar (d : Data) (c : Z) : Data :=
  match d with
  | Ints xs => Ints (map (fun x => wrap64 (x + c)) xs)
  | Floats xs => Floats (map (fun x => fadd x c) xs)
  | Bools xs => Ints (map (fun b => wrap64 (bool_int b + c)) xs)
  end.

(** [t.add_(c)]: the result has the type of [t], and a boolean tensor
    cannot hold it. *)
Definition add_scalar_inplace (d : Data) (c : Z) : option Data :=
  match d with
  | Bools _ => None
  | _ => Some (add_scalar d c)
  end.

(** [t > c] *)
Definition gt_scalar (d : Data) (c : Z) : Data :=
  match d with
  | Ints xs => Bools (map (fun x => Z.gtb x c) xs)
  | Floats xs => Bools (map (fun x => fgt x c) xs)
  | Bools xs => Bools (map (fun b => Z.gtb (bool_int b) c) xs)
  end.

(** The tensor operations the two functions of the test use.  [view]
    makes an alias of its argument; [add_] writes into its argument;
    the others make a new tensor. *)
Inductive Instr :=
| view (dst src : string) (shape : list Z)
| view_copy (dst src : string) (shape : list Z)
| add (dst src : string) (c : Z)
| add_ (self : string) (c : Z)
| sub (dst src : string) (c : Z)
| gt (dst src : string) (c : Z).

(** A Python function: parameters, body and the names it returns. *)
Record Fn := {
  params : list string;
  body : list Instr;
  returns : list string
}.

(** [cond_fun(iter, val)]:
    [iter_ = iter.view(1) + 1; iter_.add_(-1); return iter_ > 0] *)
Definition cond_fun : Fn :=
  {| params := ["iter"; "val"];
     body := [view "view" "iter" [1];
              add "iter_" "view" 1;
              add_ "iter_" (-1);
              gt "gt" "iter_" 0];
     returns := ["gt"] |}.

(** [body_fun(iter, val)]:
    [val_ = val.view(3, 2) + 2; val_.add_(-1);
     return (iter - 1, val_.view(2, 3))] *)
Definition body_fun : Fn :=
  {| params := ["iter"; "val"];
     body := [view "view" "val" [3; 2];
              add "val_" "view" 2;
              add_ "val_" (-1);
              sub "sub" "iter" 1;
              view "view_1" "val_" [2; 3]];
     returns := ["sub"; "view_1"] |}.

(** *** Eager execution *)

(** A tensor object: the storage it reads and writes, and its shape. *)
Definition Ref := (nat * list Z)%type.

Record State := {
  heap : list Data;
  env : list (string * Ref)
}.

Definition lookup_var {A} (x : string) (e : list (string * A)) : option A :=
  match List.find (fun b => String.eqb (fst b) x) e with
  | Some b => Some (snd b)
  | None => None
  end.

(** A new tensor holding [d], bound to [dst]. *)
Definition alloc (st : State) (dst : string) (shape : list Z) (d : Data) : State :=
  {| heap := heap st ++ [d];
     env := (dst, (length (heap st), shape)) :: env st |}.

(** One operation; [None] is a Python exception. *)
Definition exec (st : State) (i : Instr) : option State :=
  match i with
  | view dst src sh =>
      match lookup_var src (env st) with
      | Some (s, sh0) =>
          if Z.eqb (numel sh) (numel sh0)
          then Some {| heap := heap st; env := (dst, (s, sh)) :: env st |}
          else None
      | None => None
      end
  | view_copy dst src sh =>
      match lookup_var src (env st) with
      | Some (s, sh0) =>
          match heap st !! s with
          | Some d =>
              if Z.eqb (numel sh) (numel sh0) then Some (alloc st dst sh d)
              else None
          | None => None
          end
      | None => None
      end
  | add dst src c =>
      match lookup_var src (env st) with
      | Some (s, sh) =>
          match heap st !! s with
          | Some d => Some (alloc st dst sh (add_scalar d c))
          | None => None
          end
      | None => None
      end
  | add_ self c =>
      match lookup_var self (env st) with
      | Some (s, sh) =>
          match heap st !! s with
          | Some d =>
              match add_scalar_inplace d c with
              | Some d' => Some {| heap := <[s := d']> (heap st); env := env st |}
              | None => None
              end
          | None => None
          end
      | None => None
      end
  | sub dst src c =>
      match lookup_var src (env st) with
      | Some (s, sh) =>
          match heap st !! s with
          | Some d => Some (alloc st dst sh (add_scalar d (- c)))
          | None => None
          end
      | None => None
      end
  | gt dst src c =>
      match lookup_var src (env st) with
      | Some (s, sh) =>
          match heap st !! s with
          | Some d => Some (alloc st dst sh (gt_scalar d c))
          | None => None
          end
      | None => None
      end
  end.

Fixpoint exec_all (st : State) (instrs : list Instr) : option State :=
  match instrs with
  | [] => Some st
  | i :: instrs' =>
      match exec st i with
      | Some st' => exec_all st' instrs'
      | None => None
      end
  end.

Fixpoint bind_params (ps : list string) (args : list Ref)
  : option (list (string * Ref)) :=
  match ps, args with
  | [], [] => Some []
  | p :: ps', a :: args' =>
      match bind_params ps' args' with
      | Some e => Some ((p, a) :: e)
      | None => None
      end
  | _, _ => None
  end.

Fixpoint lookup_all (xs : list string) (e : list (string * Ref))
  : option (list Ref) :=
  match xs with
  | [] => Some []
  | x :: xs' =>
      match lookup_var x e, lookup_all xs' e with
      | Some r, Some rs => Some (r :: rs)
      | _, _ => None
      end
  end.

(** A call of [f]: the arguments are passed by reference. *)
Definition call_fn (f : Fn) (h : list Data) (args : list Ref)
  : option (list Data * list Ref) :=
  match bind_params (params f) args with
  | Some e =>
      match exec_all {| heap := h; env := e |} (body f) with
      | Some st =>
          match lookup_all (returns f) (env st) with
          | Some outs => Some (heap st, outs)
          | None => None
          end
      | None => None
      end
  | None => None
  end.

(** [bool(t)]: only a one-element tensor has a truth value. *)
Definition truth (h : list Data) (r : Ref) : option bool :=
  match h !! fst r with
  | Some (Bools [b]) => Some b
  | Some (Ints [z]) => Some (negb (Z.eqb z 0))
  | _ => None
  end.

(** [while_loop(cond_fun, body_fun, operands)], as the tests spell it out:
    while [cond_fun] holds of the operands, [body_fun] replaces them.
    [fuel] bounds the number of tests of the condition. *)
Fixpoint while_loop (fuel : nat) (cond body : Fn) (h : list Data)
    (xs : list Ref) : option (list Data * list Ref) :=
  match fuel with
  | O => None
  | S fuel' =>
      match call_fn cond h xs with
      | Some (h1, [c]) =>
          match truth h1 c with
          | Some true =>
              match call_fn body h1 xs with
              | Some (h2, xs') => while_loop fuel' cond body h2 xs'
              | None => None
              end
          | Some false => Some (h1, xs)
          | None => None
          end
      | _ => None
      end
  end.

Definition deref (h : list Data) (r : Ref) : option Tensor :=
  match h !! fst r with
  | Some d => Some {| shape := snd r; data := d |}
  | None => None
  end.

Fixpoint deref_all (h : list Data) (rs : list Ref) : option (list Tensor) :=
  match rs with
  | [] => Some []
  | r :: rs' =>
      match deref h r, deref_all h rs' with
      | Some t, Some ts => Some (t :: ts)
      | _, _ => None
      end
  end.

(** Each input tensor has a storage of its own. *)
Fixpoint store_inputs (h : list Data) (inputs : list Tensor)
  : list Data * list Ref :=
  match inputs with
  | [] => (h, [])
  | t :: inputs' =>
      let '(h', rs) := store_inputs (h ++ [data t]) inputs' in
      (h', (length h, shape t) :: rs)
  end.

(** [f(input)] for [f = lambda input: while_loop(cond, body, input)]. *)
Definition run_loop (fuel : nat) (cond body : Fn) (inputs : list Tensor)
  : option (list Tensor) :=
  let '(h, xs) := store_inputs [] inputs in
  match while_loop fuel cond body h xs with
  | Some (h', outs) => deref_all h' outs
  | None => None
  end.

(** *** The functionalization pass *)

Inductive Remove := mutations | mutations_and_views.

(** What the pass knows of the names bound so far: their shapes, and for a
    view the name whose storage it shares. *)
Record Known := {
  shapes : list (string * list Z);
  roots : list (string * string)
}.

Definition shape_of (ks : Known) (x : string) : list Z :=
  match lookup_var x (shapes ks) with
  | Some sh => sh
  | None => []
  end.

Definition root_of (ks : Known) (x : string) : string :=
  match lookup_var x (roots ks) with
  | Some r => r
  | None => x
  end.

Definition bind_name (ks : Known) (dst : string) (sh : list Z) (root : string)
  : Known :=
  {| shapes := (dst, sh) :: shapes ks; roots := (dst, root) :: roots ks |}.

(** The other names that share the storage of [x]. *)
Definition aliases (ks : Known) (x : string) : list string :=
  List.filter
    (fun y => negb (String.eqb y x) && String.eqb (root_of ks y) (root_of ks x))
    (map fst (shapes ks)).

Definition copy_of (remove : Remove) (dst src : string) (sh : list Z) : Instr :=
  match remove with
  | mutations_and_views => view_copy dst src sh
  | mutations => view dst src sh
  end.

(** Modelled from the spec: [torch.func.functionalize], which is not in
    src/.  "Rewriting in-place mutations into pure data-flow equivalents":
    [x.add_(c)] becomes [x = x + c], and the names that shared the storage
    of [x] are computed again from the new [x]; with
    [remove="mutations_and_views"] a view becomes a copy. *)
Fixpoint functionalize_body (remove : Remove) (ks : Known)
    (instrs : list Instr) : list Instr :=
  match instrs with
  | [] => []
  | view dst src sh :: rest =>
      copy_of remove dst src sh
      :: functionalize_body remove (bind_name ks dst sh (root_of ks src)) rest
  | view_copy dst src sh :: rest =>
      view_copy dst src sh
      :: functionalize_body remove (bind_name ks dst sh dst) rest
  | add dst src c :: rest =>
      add dst src c
      :: functionalize_body remove (bind_name ks dst (shape_of ks src) dst) rest
  | add_ self c :: rest =>
      (add self self c
       :: map (fun y => copy_of remove y self (shape_of ks y)) (aliases ks self)
       ++ functionalize_body remove ks rest)%list
  | sub dst src c :: rest =>
      sub dst src c
      :: functionalize_body remove (bind_name ks dst (shape_of ks src) dst) rest
  | gt dst src c :: rest =>
      gt dst src c
      :: functionalize_body remove (bind_name ks dst (shape_of ks src) dst) rest
  end.

Definition functionalize (remove : Remove) (input_shapes : list (list Z))
    (f : Fn) : Fn :=
  {| params := params f;
     body := functionalize_body remove
               {| shapes := combine (params f) input_shapes; roots := [] |}
               (body f);
     returns := returns f |}.

(** *** Traced graphs *)


Inductive OpOverload :=
| aten_view_default
| aten_view_copy_default
| aten_add_Tensor
| aten_add__Tensor
| aten_sub_Tensor
| aten_gt_Scalar
| while_loop_op.

Definition overload_eqb (a b : OpOverload) : bool :=
  match a, b with
  | aten_view_default, aten_view_default
  | aten_view_copy_default, aten_view_copy_default
  | aten_add_Tensor, aten_add_Tensor
  | aten_add__Tensor, aten_add__Tensor
  | aten_sub_Tensor, aten_sub_Tensor
  | aten_gt_Scalar, aten_gt_Scalar
  | while_loop_op, while_loop_op => true
  | _, _ => false
  end.

Definition target_of (i : Instr) : OpOverload :=
  match i with
  | view _ _ _ => aten_view_default
  | view_copy _ _ _ => aten_view_copy_default
  | add _ _ _ => aten_add_Tensor
  | add_ _ _ => aten_add__Tensor
  | sub _ _ _ => aten_sub_Tensor
  | gt _ _ _ => aten_gt_Scalar
  end.

Inductive FxNode :=
| placeholder (name : string)
| get_attr (name : string)
| call_function (instr : Instr)
| call_while_loop (cond body : string) (operands : list string)
| output (names : list string).

(** A graph module: its submodules and the nodes of its graph. *)
#[local] Set Warnings "-register-all".
Inductive GraphModule := GM (children : list GraphModule) (nodes : list FxNode).

(** [node.target == op] *)
Definition targets (op : OpOverload) (n : FxNode) : bool :=
  match n with
  | call_function i => overload_eqb (target_of i) op
  | call_while_loop _ _ _ => overload_eqb while_loop_op op
  | _ => false
  end.

(** [op_count(op, gm)] of the test file: the count over the children, then
    over the nodes of the module's own graph. *)
Fixpoint op_count (op : OpOverload) (gm : GraphModule) : nat :=
  match gm with
  | GM children nodes =>
      let count :=
        (fix over_children (mods : list GraphModule) (count : nat) : nat :=
           match mods with
           | [] => count
           | child :: mods' => over_children mods' (count + op_count op child)%nat
           end) children O in
      fold_left (fun count node => if targets op node then S count else count)
                nodes count
  end.

(** Modelled from the spec: [make_fx], which is not in src/.  "Capturing a
    program's tensor operations into a graph representation": the graph of
    a function has a placeholder for each parameter, a node for each
    operation run, in order, and an output node.  The tracing mode decides
    what the tracer knows of the sizes while it runs the function, not
    which operations it records. *)
Definition trace_fn (mode : TracingMode) (f : Fn) : GraphModule :=
  GM [] (map placeholder (params f)
         ++ map call_function (body f)
         ++ [output (returns f)])%list.

(** The graph of [lambda input: while_loop(cond, body, input)]: the two
    functions are submodules. *)
Definition make_fx (mode : TracingMode) (cond body : Fn) : GraphModule :=
  GM [trace_fn mode cond; trace_fn mode body]
     [placeholder "input_1";
      get_attr "cond_graph_0";
      get_attr "body_graph_0";
      call_while_loop "cond_graph_0" "body_graph_0" ["input_1"];
      output ["while_loop"]].

(** The function a graph computes. *)
Definition fn_of_graph (gm : GraphModule) : Fn :=
  match gm with
  | GM _ nodes =>
      {| params := flat_map (fun n => match n with
                                      | placeholder x => [x]
                                      | _ => []
                                      end) nodes;
         body := flat_map (fun n => match n with
                                    | call_function i => [i]
                                    | _ => []
                                    end) nodes;
         returns := flat_map (fun n => match n with
                                       | output xs => xs
                                       | _ => []
                                       end) nodes |}
  end.

(** [gm(input)] for a traced [while_loop]. *)
Definition run_graph (fuel : nat) (gm : GraphModule) (inputs : list Tensor)
  : option (list Tensor) :=
  match gm with
  | GM [cond; body] _ => run_loop fuel (fn_of_graph cond) (fn_of_graph body) inputs
  | _ => None
  end.

(** *** What the loop of the test computes *)

Definition cond_val (n : Z) : bool := Z.gtb (wrap64 (wrap64 (n + 1) + -1)) 0.

Definition body_val (n : Z) (v : list F) : Z * list F :=
  (wrap64 (n + - 1), map (fun x => fadd x (-1)) (map (fun x => fadd x 2) v)).

Fixpoint loop_val (fuel : nat) (n : Z) (v : list F) : option (Z * list F) :=
  match fuel with
  | O => None
  | S fuel' =>
      if cond_val n
      then let '(n', v') := body_val n v in loop_val fuel' n' v'
      else Some (n, v)
  end.

(** *** Heaps *)

Lemma heap_last (h : list Data) (d : Data) : (h ++ [d]) !! length h = Some d.
Proof. now apply list_lookup_middle. Qed.

Lemma heap_insert_last (h : list Data) (d d' : Data) :
  <[length h := d']> (h ++ [d]) = (h ++ [d'])%list.
Proof.
  replace (length h) with (length h + 0)%nat by lia.
  now rewrite insert_app_r.
Qed.

Lemma heap_length_snoc (h : list Data) (d : Data) :
  length (h ++ [d]) = S (length h).
Proof. rewrite length_app. cbn. lia. Qed.

Lemma heap_last_at (h : list Data) (d : Data) i :
  i = length h -> (h ++ [d]) !! i = Some d.
Proof. intros ->. apply heap_last. Qed.

(** Finds the cell of a heap built by appending. *)
Ltac heap_lookup :=
  first
    [ eassumption
    | apply heap_last_at; rewrite ?heap_length_snoc; reflexivity
    | apply lookup_app_l_Some; heap_lookup ].

Ltac heap_simpl :=
  repeat first
    [ rewrite heap_insert_last
    | match goal with
      | |- context [@lookup _ _ _ _ ?i ?h] =>
          let E := fresh in
          eassert (h !! i = Some _) as E by heap_lookup; rewrite E; clear E
      end
    | rewrite heap_length_snoc
    | match goal with
      | |- context [Z.eqb (numel ?a) (numel ?b)] =>
          let r := eval vm_compute in (Z.eqb (numel a) (numel b)) in
          change (Z.eqb (numel a) (numel b)) with r
      end
    | progress cbn [heap env alloc exec exec_all lookup_var List.find fst snd
                    String.eqb Ascii.eqb Bool.eqb add_scalar
                    add_scalar_inplace gt_scalar map
                    lookup_all bind_params params body returns] ].

Definition iter_ref (s : nat) : Ref := (s, []).
Definition val_ref (s : nat) : Ref := (s, [2; 3]).

Lemma eager_cond (h : list Data) si sv n :
  h !! si = Some (Ints [n]) ->
  call_fn cond_fun h [iter_ref si; val_ref sv]
  = Some ((h ++ [Ints [wrap64 (wrap64 (n + 1) + -1)]]) ++ [Bools [cond_val n]],
          [(S (length h), [1])])%list.
Proof.
  intros Hi. unfold call_fn, cond_fun, iter_ref, val_ref. heap_simpl.
  reflexivity.
Qed.

Lemma eager_body (h : list Data) si sv n v :
  h !! si = Some (Ints [n]) -> h !! sv = Some (Floats v) ->
  call_fn body_fun h [iter_ref si; val_ref sv]
  = Some ((h ++ [Floats (snd (body_val n v))]) ++ [Ints [fst (body_val n v)]],
          [iter_ref (S (length h)); val_ref (length h)]).
Proof.
  intros Hi Hv. unfold call_fn, body_fun, iter_ref, val_ref. heap_simpl.
  reflexivity.
Qed.

(** The functions the pass makes of the two functions of the test, for the
    shapes of [iter] and [val]. *)
Definition input_shapes : list (list Z) := [[]; [2; 3]].

Definition ff_cond_fun : Fn := functionalize mutations_and_views input_shapes cond_fun.

Definition ff_body_fun : Fn := functionalize mutations_and_views input_shapes body_fun.

Lemma ff_cond_fun_eq :
  ff_cond_fun =
    {| params := ["iter"; "val"];
       body := [view_copy "view" "iter" [1];
                add "iter_" "view" 1;
                add "iter_" "iter_" (-1);
                gt "gt" "iter_" 0];
       returns := ["gt"] |}.
Proof. reflexivity. Qed.

Lemma ff_body_fun_eq :
  ff_body_fun =
    {| params := ["iter"; "val"];
       body := [view_copy "view" "val" [3; 2];
                add "val_" "view" 2;
                add "val_" "val_" (-1);
                sub "sub" "iter" 1;
                view_copy "view_1" "val_" [2; 3]];
       returns := ["sub"; "view_1"] |}.
Proof. reflexivity. Qed.

Lemma ff_cond (h : list Data) si sv n :
  h !! si = Some (Ints [n]) ->
  exists h',
    call_fn ff_cond_fun h [iter_ref si; val_ref sv]
    = Some (h' ++ [Bools [cond_val n]], [(length h', [1])])
    /\ (forall i d, h !! i = Some d -> (h' ++ [Bools [cond_val n]]) !! i = Some d).
Proof.
  intros Hi.
  exists (((h ++ [Ints [n]]) ++ [Ints [wrap64 (n + 1)]])
          ++ [Ints [wrap64 (wrap64 (n + 1) + -1)]]).
  split.
  - rewrite ff_cond_fun_eq. unfold call_fn, iter_ref, val_ref.
    heap_simpl. reflexivity.
  - intros i d Hd. now repeat apply lookup_app_l_Some.
Qed.

Lemma ff_body (h : list Data) si sv n v :
  h !! si = Some (Ints [n]) -> h !! sv = Some (Floats v) ->
  exists h' si' sv',
    call_fn ff_body_fun h [iter_ref si; val_ref sv]
    = Some (h', [iter_ref si'; val_ref sv'])
    /\ h' !! si' = Some (Ints [fst (body_val n v)])
    /\ h' !! sv' = Some (Floats (snd (body_val n v))).
Proof.
  intros Hi Hv.
  exists (((((h ++ [Floats v]) ++ [Floats (map (fun x => fadd x 2) v)])
            ++ [Floats (snd (body_val n v))])
           ++ [Ints [fst (body_val n v)]])
          ++ [Floats (snd (body_val n v))]).
  do 2 eexists. split; [|split].
  - rewrite ff_body_fun_eq. unfold call_fn, iter_ref, val_ref.
    heap_simpl. reflexivity.
  - apply lookup_app_l_Some. apply heap_last_at. now rewrite !heap_length_snoc.
  - apply heap_last_at. now rewrite !heap_length_snoc.
Qed.

(** A condition and a body that compute [cond_val] and [body_val] and
    leave the tensors they were given as they are. *)
Definition computes_cond (c : Fn) : Prop :=
  forall h si sv n, h !! si = Some (Ints [n]) ->
  exists h1 r,
    call_fn c h [iter_ref si; val_ref sv] = Some (h1, [r])
    /\ truth h1 r = Some (cond_val n)
    /\ (forall i d, h !! i = Some d -> h1 !! i = Some d).

Definition computes_body (b : Fn) : Prop :=
  forall h si sv n v,
  h !! si = Some (Ints [n]) -> h !! sv = Some (Floats v) ->
  exists h' si' sv',
    call_fn b h [iter_ref si; val_ref sv] = Some (h', [iter_ref si'; val_ref sv'])
    /\ h' !! si' = Some (Ints [fst (body_val n v)])
    /\ h' !! sv' = Some (Floats (snd (body_val n v))).

Lemma cond_fun_computes : computes_cond cond_fun.
Proof.
  intros h si sv n Hi. do 2 eexists. split; [exact (eager_cond h si sv n Hi)|]. split.
  - unfold truth. cbn [fst]. erewrite heap_last_at; [reflexivity|].
    now rewrite heap_length_snoc.
  - intros i d Hd. now repeat apply lookup_app_l_Some.
Qed.

Lemma body_fun_computes : computes_body body_fun.
Proof.
  intros h si sv n v Hi Hv. do 3 eexists.
  split; [exact (eager_body h si sv n v Hi Hv)|]. split.
  - apply heap_last_at. now rewrite heap_length_snoc.
  - apply lookup_app_l_Some, heap_last.
Qed.

Lemma ff_cond_fun_computes : computes_cond ff_cond_fun.
Proof.
  intros h si sv n Hi. destruct (ff_cond h si sv n Hi) as (h' & Hcall & Hold).
  do 2 eexists. split; [exact Hcall|]. split; [|exact Hold].
  unfold truth. cbn [fst]. now rewrite heap_last.
Qed.

Lemma ff_body_fun_computes : computes_body ff_body_fun.
Proof. intros h si sv n v Hi Hv. now apply ff_body. Qed.

Lemma while_loop_val (c b : Fn) :
  computes_cond c -> computes_body b ->
  forall fuel h si sv n v,
  h !! si = Some (Ints [n]) -> h !! sv = Some (Floats v) ->
  match loop_val fuel n v with
  | Some (n', v') =>
      exists h' si' sv',
        while_loop fuel c b h [iter_ref si; val_ref sv]
        = Some (h', [iter_ref si'; val_ref sv'])
        /\ h' !! si' = Some (Ints [n']) /\ h' !! sv' = Some (Floats v')
  | None => while_loop fuel c b h [iter_ref si; val_ref sv] = None
  end.
Proof.
  intros Hc Hb. induction fuel as [|fuel IH]; intros h si sv n v Hi Hv;
    [reflexivity|].
  cbn [loop_val while_loop].
  destruct (Hc h si sv n Hi) as (h1 & r & -> & -> & Hold).
  destruct (cond_val n).
  - destruct (Hb h1 si sv n v (Hold _ _ Hi) (Hold _ _ Hv))
      as (h2 & si' & sv' & -> & Hi' & Hv').
    destruct (body_val n v) as [n' v'] eqn:Hbv. cbn [fst snd] in *.
    apply IH; assumption.
  - exists h1, si, sv. auto.
Qed.

Definition input (iter : Z) (val : list F) : list Tensor :=
  [{| shape := []; data := Ints [iter] |};
   {| shape := [2; 3]; data := Floats val |}].

Lemma run_val (c b : Fn) (fuel : nat) (iter : Z) (val : list F) :
  computes_cond c -> computes_body b ->
  run_loop fuel c b (input iter val)
  = match loop_val fuel iter val with
    | Some (n', v') => Some (input n' v')
    | None => None
    end.
Proof.
  intros Hc Hb.
  change (run_loop fuel c b (input iter val))
    with (match while_loop fuel c b [Ints [iter]; Floats val]
                  [iter_ref 0; val_ref 1] with
          | Some (h', outs) => deref_all h' outs
          | None => None
          end).
  pose proof (while_loop_val c b Hc Hb fuel [Ints [iter]; Floats val] 0 1 iter val
                eq_refl eq_refl) as H.
  destruct (loop_val fuel iter val) as [[n' v']|].
  - destruct H as (h' & si' & sv' & -> & Hi' & Hv').
    unfold deref_all, deref, iter_ref, val_ref. cbn [fst snd].
    now rewrite Hi', Hv'.
  - now rewrite H.
Qed.

Lemma wrap64_small (z : Z) : - 2 ^ 63 <= z < 2 ^ 63 -> wrap64 z = z.
Proof. intros Hz. unfold wrap64. rewrite Z.mod_small; lia. Qed.

Lemma loop_val_terminates (fuel : nat) :
  forall n v, 0 <= n < 2 ^ 62 -> (Z.to_nat n < fuel)%nat ->
  exists v', loop_val fuel n v = Some (0, v').
Proof.
  induction fuel as [|fuel IH]; intros n v Hn Hfuel; [lia|].
  cbn [loop_val]. unfold cond_val, body_val.
  rewrite (wrap64_small (n + 1)) by lia.
  replace (n + 1 + -1) with n by lia. rewrite (wrap64_small n) by lia.
  destruct (Z.gtb_spec n 0) as [Hpos|Hzero].
  - rewrite wrap64_small by lia. apply IH; lia.
  - exists v. f_equal. f_equal. lia.
Qed.

(** *** No view and no mutation is left *)

Definition impure (i : Instr) : bool :=
  targets aten_view_default (call_function i)
  || targets aten_add__Tensor (call_function i).

Lemma functionalize_body_pure (ks : Known) (instrs : list Instr) :
  forallb (fun i => negb (impure i))
    (functionalize_body mutations_and_views ks instrs) = true.
Proof.
  revert ks. induction instrs as [|i instrs IH]; intros ks; [reflexivity|].
  destruct i; cbn [functionalize_body forallb copy_of]; rewrite ?IH; try reflexivity.
  rewrite forallb_app, IH, andb_true_r. cbn.
  induction (aliases ks self); [reflexivity|]. cbn. exact IHl.
Qed.

Lemma count_nodes_none (op : OpOverload) (nodes : list FxNode) (count : nat) :
  forallb (fun n => negb (targets op n)) nodes = true ->
  fold_left (fun count node => if targets op node then S count else count)
            nodes count = count.
Proof.
  revert count. induction nodes as [|n nodes IH]; intros count H; [reflexivity|].
  cbn in *. apply andb_prop in H as [Hn H].
  destruct (targets op n); [discriminate|]. now apply IH.
Qed.

Lemma op_count_trace_fn (mode : TracingMode) (op : OpOverload) (f : Fn) :
  forallb (fun i => negb (targets op (call_function i))) (body f) = true ->
  op_count op (trace_fn mode f) = O.
Proof.
  intros H. unfold trace_fn. cbn [op_count]. apply count_nodes_none.
  rewrite !forallb_app. rewrite !andb_true_iff. split; [|split].
  - induction (params f); [reflexivity|]. exact IHl.
  - induction (body f) as [|i l IHl]; [reflexivity|].
    cbn in *. apply andb_prop in H as [-> H]. now apply IHl.
  - reflexivity.
Qed.

Lemma op_count_functionalized (mode : TracingMode) (op : OpOverload)
    (shapes_c shapes_b : list (list Z)) (c b : Fn) :
  op = aten_view_default \/ op = aten_add__Tensor ->
  op_count op
    (make_fx mode (functionalize mutations_and_views shapes_c c)
                  (functionalize mutations_and_views shapes_b b)) = O.
Proof.
  intros Hop.
  assert (forall ks instrs,
            forallb (fun i => negb (targets op (call_function i)))
              (functionalize_body mutations_and_views ks instrs) = true) as Hpure.
  { intros ks instrs. pose proof (functionalize_body_pure ks instrs) as H.
    rewrite forallb_forall in *. intros i Hi. specialize (H i Hi).
    unfold impure in H. apply negb_true_iff, orb_false_elim in H as [H1 H2].
    destruct Hop as [-> | ->]; apply negb_true_iff; assumption. }
  unfold make_fx. cbn [op_count].
  rewrite !op_count_trace_fn by apply Hpure.
  destruct Hop as [-> | ->]; reflexivity.
Qed.

Lemma fn_of_graph_trace_fn (mode : TracingMode) (f : Fn) :
  fn_of_graph (trace_fn mode f) = f.
Proof.
  destruct f as [ps instrs rs]. unfold trace_fn, fn_of_graph.
  cbn [params body returns]. rewrite !flat_map_app. f_equal.
  - replace (flat_map _ (map placeholder ps)) with ps
      by (induction ps as [|p ps IH]; cbn; [|rewrite <- IH]; reflexivity).
    replace (flat_map _ (map call_function instrs)) with (@nil string)
      by (induction instrs as [|i l IH]; cbn; [|rewrite <- IH]; reflexivity).
    cbn. now rewrite app_nil_r.
  - replace (flat_map _ (map placeholder ps)) with (@nil Instr)
      by (induction ps as [|p ps IH]; cbn; [|rewrite <- IH]; reflexivity).
    replace (flat_map _ (map call_function instrs)) with instrs
      by (induction instrs as [|i l IH]; cbn; [|rewrite <- IH]; reflexivity).
    cbn. now rewrite app_nil_r.
  - replace (flat_map _ (map placeholder ps)) with (@nil string)
      by (induction ps as [|p ps IH]; cbn; [|rewrite <- IH]; reflexivity).
    replace (flat_map _ (map call_function instrs)) with (@nil string)
      by (induction instrs as [|i l IH]; cbn; [|rewrite <- IH]; reflexivity).
    cbn. now rewrite app_nil_r.
Qed.

(** C4. Functionalizing the [while_loop] of the test with
    [remove="mutations_and_views"] changes no result and leaves no view and
    no in-place operation: for a loop counter [iter] that the loop can count
    down within the fuel given, eager execution returns the counter at zero
    and a value tensor; the functionalized function returns the same, so do
    the graphs that [make_fx] traces from it in either tracing mode, and
    [op_count] finds no [aten.view.default] and no [aten.add_.Tensor] in
    those graphs. *)
Theorem functionalized_while_loop
    (mode : TracingMode) (fuel : nat) (iter : Z) (val : list F) :
  0 <= iter < 2 ^ 62 -> (Z.to_nat iter < fuel)%nat ->
  let ff_gm := make_fx mode ff_cond_fun ff_body_fun in
  exists out,
    run_loop fuel cond_fun body_fun (input iter val) = Some (input 0 out)
    /\ run_loop fuel ff_cond_fun ff_body_fun (input iter val)
       = run_loop fuel cond_fun body_fun (input iter val)
    /\ run_graph fuel ff_gm (input iter val)
       = run_loop fuel cond_fun body_fun (input iter val)
    /\ op_count aten_view_default ff_gm = O
    /\ op_count aten_add__Tensor ff_gm = O.
Proof.
  intros Hiter Hfuel ff_gm.
  destruct (loop_val_terminates fuel iter val Hiter Hfuel) as [out Hout].
  exists out.
  assert (run_loop fuel cond_fun body_fun (input iter val) = Some (input 0 out)) as He
    by (rewrite run_val, Hout;
        [reflexivity | apply cond_fun_computes | apply body_fun_computes]).
  assert (run_loop fuel ff_cond_fun ff_body_fun (input iter val) = Some (input 0 out))
    as Hf
    by (rewrite run_val, Hout;
        [reflexivity | apply ff_cond_fun_computes | apply ff_body_fun_computes]).
  split; [exact He|]. split; [now rewrite He|]. split.
  - unfold ff_gm, make_fx, run_graph. rewrite !fn_of_graph_trace_fn.
    now rewrite He.
  - split; apply op_count_functionalized; auto.
Qed.

End Elements.

Lemma functionalized_while_loop_witness :
  exists out,
    run_loop Z Z.add Z.gtb 6 cond_fun body_fun (input Z 5 [10; 20; 30; 40; 50; 60])
    = Some (input Z 0 out)
    /\ run_loop Z Z.add Z.gtb 6 (ff_cond_fun) (ff_body_fun) (input Z 5 [10; 20; 30; 40; 50; 60])
       = run_loop Z Z.add Z.gtb 6 cond_fun body_fun (input Z 5 [10; 20; 30; 40; 50; 60])
    /\ run_graph Z Z.add Z.gtb 6 (make_fx symbolic ff_cond_fun ff_body_fun)
         (input Z 5 [10; 20; 30; 40; 50; 60])
       = run_loop Z Z.add Z.gtb 6 cond_fun body_fun (input Z 5 [10; 20; 30; 40; 50; 60])
    /\ op_count aten_view_default (make_fx symbolic ff_cond_fun ff_body_fun) = O
    /\ op_count aten_add__Tensor (make_fx symbolic ff_cond_fun ff_body_fun) = O.
Proof.
  apply (functionalized_while_loop Z Z.add Z.gtb symbolic 6 5
           [10; 20; 30; 40; 50; 60]); [lia | vm_compute; lia].
Defined.

(** *** What [op_count] counts *)

(** The nodes of a module and of all the modules below it, children
    first. *)
Fixpoint all_nodes (gm : GraphModule) : list FxNode :=
  match gm with
  | GM children nodes => (flat_map all_nodes children ++ nodes)%list
  end.

(** Induction on a module, with the property known of its children. *)
Fixpoint GraphModule_children_ind (P : GraphModule -> Prop)
    (step : forall children nodes, Forall P children -> P (GM children nodes))
    (gm : GraphModule) : P gm :=
  match gm with
  | GM children nodes =>
      step children nodes
        ((fix over (mods : list GraphModule) : Forall P mods :=
            match mods with
            | [] => @List.Forall_nil _ P
            | child :: mods' =>
                @List.Forall_cons _ P child mods'
                  (GraphModule_children_ind P step child) (over mods')
            end) children)
  end.

Lemma count_nodes (op : OpOverload) (nodes : list FxNode) (count : nat) :
  fold_left (fun count node => if targets op node then S count else count)
            nodes count
  = (count + length (List.filter (targets op) nodes))%nat.
Proof.
  revert count. induction nodes as [|n nodes IH]; intros count; cbn; [lia|].
  rewrite IH. destruct (targets op n); cbn; lia.
Qed.

(** X8.  [op_count(op, gm)] is the number of nodes whose target is [op]
    in [gm] and in every module below it, at any depth: the recursion over
    [gm.children()] and the loop over [gm.graph.nodes] miss no node and
    count none twice.  So it is zero exactly when no node anywhere in the
    module targets [op]. *)
Theorem op_count_counts_all_nodes (op : OpOverload) (gm : GraphModule) :
  op_count op gm = length (List.filter (targets op) (all_nodes gm))
  /\ (op_count op gm = O <->
      forall node, In node (all_nodes gm) -> targets op node = false).
Proof.
  assert (op_count op gm = length (List.filter (targets op) (all_nodes gm)))
    as Hcount.
  { induction gm as [children nodes IH] using GraphModule_children_ind.
    cbn [op_count all_nodes].
    rewrite count_nodes, List.filter_app, length_app. f_equal.
    enough (forall count,
              (fix over_children (mods : list GraphModule) (count : nat) : nat :=
                 match mods with
                 | [] => count
                 | child :: mods' =>
                     over_children mods' (count + op_count op child)%nat
                 end) children count
              = (count + length (List.filter (targets op)
                                   (flat_map all_nodes children)))%nat) as H
      by (rewrite H; lia).
    induction IH as [|child mods Hchild _ IHmods]; intros count;
      [cbn; lia|].
    rewrite IHmods, Hchild. cbn [flat_map].
    rewrite List.filter_app, length_app. lia. }
  split; [exact Hcount|].
  rewrite Hcount. clear Hcount. generalize (all_nodes gm). intros l. split.
  - intros Hzero node Hin.
    destruct (targets op node) eqn:Hnode; [|reflexivity].
    assert (In node (List.filter (targets op) l)) as Hf
      by (apply filter_In; auto).
    destruct (List.filter (targets op) l); [destruct Hf|discriminate].
  - induction l as [|n l IH]; intros Hnone; [reflexivity|].
    cbn [List.filter]. rewrite (Hnone n) by now left.
    apply IH. intros node Hin. apply Hnone. now right.
Qed.

End Functionalization.
